(** * IoT monitoring dashboard: telemetry simulation and alerting engine

    A shallow embedding of the core of [vite-project/src/App.jsx]: the
    random-walk tick of [useIoTData], [toggleStatus],
    [getDeviceCurrentData], [createHistoricalData], [convertToCsv], the
    live history buffer of [LiveMonitorTab] and [handleSave] of
    [ThresholdSettingsTab].

    Conventions of the embedding.
    - A JavaScript number is an exact rational ([Q]); the rounding error of
      IEEE-754 arithmetic, NaN and the infinities are outside the model.
      Millisecond timestamps are integers ([Z]).
    - The [deviceData] object is a finite map from device id to entry
      ([gmap string DeviceEntry]); properties inherited from
      [Object.prototype] are outside the model.
    - [Math.random], [Date.now] and the locale's time formatting are read
      from an explicit [World]; a thrown exception is a [Throw] result. *)

From Stdlib Require Import ZArith QArith Qround Qabs Qminmax Lqa Lia.
From Stdlib Require Import Ascii String DecimalString.
From stdpp Require Import base option list strings gmap fin_maps.

Local Open Scope Z_scope.

(* ===================================================================== *)
(** * Definitions                                                        *)
(* ===================================================================== *)

(** ** JavaScript numbers *)

(** [x < y] on numbers. *)
Definition num_lt (x y : Q) : bool :=
  match (x ?= y)%Q with Lt => true | _ => false end.

(** [x > y] on numbers. *)
Definition num_gt (x y : Q) : bool := num_lt y x.

(** [x <= y] on numbers. *)
Definition num_le (x y : Q) : bool := Qle_bool x y.

Definition Math_max (x y : Q) : Q := Qmax x y.
Definition Math_min (x y : Q) : Q := Qmin x y.

(** [parseFloat(x.toFixed(1))].  [toFixed] keeps the sign apart, returns
    [ToString(x)] unchanged from 10^21 on, and otherwise picks the integer
    [n] with [n / 10] closest to [|x|], the larger one on a tie. *)
Definition round1 (x : Q) : Q :=
  if Qle_bool (1000000000000000000000 # 1) (Qabs x) then x
  else
    let n := Qfloor (Qabs x * (10 # 1) + (1 # 2)) in
    if num_lt x 0 then (- n) # 10 else n # 10.

(** ** Rendering of integers and numbers *)

Definition digits (n : Z) : string :=
  NilZero.string_of_uint (N.to_uint (Z.to_N n)).

Fixpoint zeros (k : nat) : string :=
  match k with
  | O => EmptyString
  | S k' => String "0" (zeros k')
  end.

(** [String(n).padStart(width, "0")] for a natural [n]. *)
Definition pad0 (width : nat) (n : Z) : string :=
  let s := digits n in
  zeros (width - String.length s) +:+ s.

(** The decimal exponent [n] of a positive [x]: [10^(n-1) <= x < 10^n]. *)
Fixpoint scale_up (fuel : nat) (x : Q) (m : Z) : Z :=
  match fuel with
  | O => m
  | S fuel' =>
      if Qle_bool 1 x then m else scale_up fuel' (x * (10 # 1))%Q (m + 1)
  end.

Definition decimal_exponent (x : Q) : Z :=
  if Qle_bool 1 x then Z.of_nat (String.length (digits (Qfloor x)))
  else 1 - scale_up (S (Pos.size_nat (Qden x))) x 0.

Definition pow10 (e : Z) : Q :=
  if 0 <=? e then (10 ^ e) # 1 else 1 # Z.to_pos (10 ^ (- e)).

Fixpoint strip_zeros (fuel : nat) (s : Z) : Z :=
  match fuel with
  | O => s
  | S fuel' =>
      if (s mod 10 =? 0) && negb (s =? 0) then strip_zeros fuel' (s / 10)
      else s
  end.

Definition exponent_part (e : Z) : string :=
  "e" +:+ (if e <? 0 then "-" else "+") +:+ digits (Z.abs e).

(** [Number::toString] of ECMA-262 in radix 10.  The digit string [s] has
    [k] digits, the value is [s * 10^(n-k)], and at most 17 significant
    digits are produced, the most the shortest decimal form of a double
    carries. *)
Definition Number_toString_pos (x : Q) : string :=
  let n := decimal_exponent x in
  let s := strip_zeros 17 (Qfloor (x * pow10 (17 - n))) in
  let ds := digits s in
  let k := Z.of_nat (String.length ds) in
  if (k <=? n) && (n <=? 21) then ds +:+ zeros (Z.to_nat (n - k))
  else if (0 <? n) && (n <=? 21) then
    substring 0 (Z.to_nat n) ds +:+ "." +:+
    substring (Z.to_nat n) (Z.to_nat (k - n)) ds
  else if (-6 <? n) && (n <=? 0) then
    "0." +:+ zeros (Z.to_nat (- n)) +:+ ds
  else if k =? 1 then ds +:+ exponent_part (n - 1)
  else
    substring 0 1 ds +:+ "." +:+ substring 1 (Z.to_nat (k - 1)) ds
    +:+ exponent_part (n - 1).

Definition Number_toString (x : Q) : string :=
  if Qeq_bool x 0 then "0"
  else if num_lt x 0 then "-" +:+ Number_toString_pos (- x)
  else Number_toString_pos x.

(** ** Dates *)

Definition msPerDay : Z := 86400000.

(** The largest time value of a [Date]; beyond it the date is invalid. *)
Definition maxTime : Z := 8640000000000000.

Definition validTime (t : Z) : bool := (- maxTime <=? t) && (t <=? maxTime).

(** Year, month (1 to 12) and day of the month of a day number counted from
    1 January 1970, in the proleptic Gregorian calendar ([YearFromTime],
    [MonthFromTime] and [DateFromTime] of ECMA-262), computed over the
    400-year cycle with years starting in March. *)
Definition civil_from_days (day : Z) : Z * Z * Z :=
  let z := day + 719468 in
  let era := z / 146097 in
  let doe := z - era * 146097 in
  let yoe := (doe - doe / 1460 + doe / 36524 - doe / 146096) / 365 in
  let doy := doe - (365 * yoe + yoe / 4 - yoe / 100) in
  let mp := (5 * doy + 2) / 153 in
  let d := doy - (153 * mp + 2) / 5 + 1 in
  let m := if mp <? 10 then mp + 3 else mp - 9 in
  let y := yoe + era * 400 + (if m <=? 2 then 1 else 0) in
  (y, m, d).

(** [DayFromYear] of ECMA-262: the day number of 1 January of year [y]. *)
Definition DayFromYear (y : Z) : Z :=
  365 * (y - 1970) + (y - 1969) / 4 - (y - 1901) / 100 + (y - 1601) / 400.

(** [InLeapYear] of ECMA-262, from the year. *)
Definition InLeapYear (y : Z) : Z :=
  if (y mod 4 =? 0) && (negb (y mod 100 =? 0) || (y mod 400 =? 0)) then 1
  else 0.

(** [MonthFromTime] (here from 1) and [DateFromTime] of ECMA-262, from the
    day within the year and the leap-year flag. *)
Definition monthAndDate (dayWithinYear leap : Z) : Z * Z :=
  if dayWithinYear <? 31 then (1, dayWithinYear + 1)
  else if dayWithinYear <? 59 + leap then (2, dayWithinYear - 30)
  else if dayWithinYear <? 90 + leap then (3, dayWithinYear - 58 - leap)
  else if dayWithinYear <? 120 + leap then (4, dayWithinYear - 89 - leap)
  else if dayWithinYear <? 151 + leap then (5, dayWithinYear - 119 - leap)
  else if dayWithinYear <? 181 + leap then (6, dayWithinYear - 150 - leap)
  else if dayWithinYear <? 212 + leap then (7, dayWithinYear - 180 - leap)
  else if dayWithinYear <? 243 + leap then (8, dayWithinYear - 211 - leap)
  else if dayWithinYear <? 273 + leap then (9, dayWithinYear - 242 - leap)
  else if dayWithinYear <? 304 + leap then (10, dayWithinYear - 272 - leap)
  else if dayWithinYear <? 334 + leap then (11, dayWithinYear - 303 - leap)
  else (12, dayWithinYear - 333 - leap).

(** [civil_from_days day] is the date those definitions give for [day]. *)
Definition calendar_agrees (day : Z) : bool :=
  let '(y, m, d) := civil_from_days day in
  let '(m', d') := monthAndDate (day - DayFromYear y) (InLeapYear y) in
  (DayFromYear y <=? day) && (day <? DayFromYear (y + 1)) &&
  (m =? m') && (d =? d').

(** [calendar_agrees] on [n] days from [day] on. *)
Fixpoint all_days (n : nat) (day : Z) : bool :=
  match n with
  | O => true
  | S n' => calendar_agrees day && all_days n' (day + 1)
  end.

(** The days of the 400-year cycle of the calendar. *)
Definition cycleDays : nat := Z.to_nat 146097.

(** The year of an ISO string: four digits from 0 to 9999, otherwise a
    sign and six digits. *)
Definition isoYear (y : Z) : string :=
  if (0 <=? y) && (y <=? 9999) then pad0 4 y
  else (if y <? 0 then "-" else "+") +:+ pad0 6 (Z.abs y).

(** ** Results, exceptions and the world *)

Inductive exn : Type := TypeError | RangeError.

Inductive result (A : Type) : Type :=
| Ok (a : A)
| Throw (e : exn).
Arguments Ok {A} a.
Arguments Throw {A} e.

(** The text of [toISOString] for a valid time value:
    [YYYY-MM-DDTHH:mm:ss.sssZ], in UTC. *)
Definition isoString (t : Z) : string :=
  let '(y, m, d) := civil_from_days (t / msPerDay) in
  let ms := t mod msPerDay in
  isoYear y +:+ "-" +:+ pad0 2 m +:+ "-" +:+ pad0 2 d +:+ "T" +:+
  pad0 2 (ms / 3600000) +:+ ":" +:+ pad0 2 (ms / 60000 mod 60) +:+ ":" +:+
  pad0 2 (ms / 1000 mod 60) +:+ "." +:+ pad0 3 (ms mod 1000) +:+ "Z".

(** [new Date(t).toISOString()]: a [RangeError] on an invalid date. *)
Definition toISOString (t : Z) : result string :=
  if validTime t then Ok (isoString t) else Throw RangeError.

(** What the program reads from its environment: the successive results
    of [Math.random] ([tape], read at [cursor]), the clock behind
    [Date.now] and the locale's rendering of a time of day. *)
Record World : Type := {
  tape : nat -> Q;
  cursor : nat;
  clock : Z;
  localeTime : Z -> string
}.

(** Every result of [Math.random] lies in [0, 1). *)
Definition unit_tape (w : World) : Prop :=
  forall n : nat, (0 <= tape w n)%Q /\ (tape w n < 1)%Q.

Definition JS (A : Type) : Type := World -> result (A * World).

Definition ret {A : Type} (a : A) : JS A := fun w => Ok (a, w).

Definition bind {A B : Type} (c : JS A) (k : A -> JS B) : JS B :=
  fun w =>
    match c w with
    | Ok (a, w') => k a w'
    | Throw e => Throw e
    end.

Definition throw {A : Type} (e : exn) : JS A := fun _ => Throw e.

Notation "'let*' x ':=' c 'in' k" := (bind c (fun x => k))
  (at level 10, x name, c at level 100, k at level 200).

Definition Math_random : JS Q :=
  fun w =>
    Ok (tape w (cursor w),
        {| tape := tape w; cursor := S (cursor w);
           clock := clock w; localeTime := localeTime w |}).

Definition Date_now : JS Z := fun w => Ok (clock w, w).

(** [new Date(t).toLocaleTimeString([], options)]. *)
Definition toLocaleTimeString (t : Z) : JS string :=
  fun w => Ok (localeTime w t, w).

(** [list.forEach] with the object it mutates passed along. *)
Fixpoint forEach {A S : Type} (f : S -> A -> JS S) (l : list A) (s : S)
  : JS S :=
  match l with
  | [] => ret s
  | a :: l' => let* s' := f s a in forEach f l' s'
  end.

(** ** Data model *)

Record Device : Type := {
  dev_id : string;
  dev_name : string;
  dev_status : bool;
  dev_location : string
}.

Definition INITIAL_DEVICES : list Device :=
  [ {| dev_id := "dev-001"; dev_name := "Server Rack 1";
       dev_status := true; dev_location := "Data Center A" |};
    {| dev_id := "dev-002"; dev_name := "HVAC Unit 3";
       dev_status := true; dev_location := "Warehouse 2" |};
    {| dev_id := "dev-003"; dev_name := "Cold Storage A";
       dev_status := false; dev_location := "Processing Plant" |} ].

Record Range : Type := { rmin : Q; rmax : Q }.

Record Thresholds : Type := { th_temp : Range; th_humidity : Range }.

Definition DEFAULT_THRESHOLDS : Thresholds :=
  {| th_temp := {| rmin := 18 # 1; rmax := 25 # 1 |};
     th_humidity := {| rmin := 40 # 1; rmax := 60 # 1 |} |}.

(** The invariant of a committed threshold set: [min < max] on both
    metrics. *)
Definition validThresholds (th : Thresholds) : Prop :=
  (rmin (th_temp th) < rmax (th_temp th))%Q /\
  (rmin (th_humidity th) < rmax (th_humidity th))%Q.

(** One entry of [deviceData]. *)
Record DeviceEntry : Type := {
  temp : Q;
  humidity : Q;
  status : bool
}.

(** The object [getDeviceCurrentData] returns; the two alert properties
    are absent ([None]) from the object returned for a missing entry. *)
Record CurrentData : Type := {
  cd_temp : Q;
  cd_humidity : Q;
  cd_status : bool;
  tempAlert : option bool;
  humidityAlert : option bool
}.

Record HistoricalPoint : Type := {
  timestamp : Z;
  time : string;
  h_temp : Q;
  h_humidity : Q
}.

(** A row handed to [convertToCsv]. *)
Record ExportPoint : Type := {
  e_timestamp : Z;
  e_temp : Q;
  e_humidity : Q
}.

(** An element of [liveDataHistory]. *)
Record LivePoint : Type := {
  l_time : string;
  l_temp : Q;
  l_humidity : Q
}.

(** ** Historical window aggregator: [createHistoricalData] *)

(** The [switch] on [range]. *)
Definition rangeCount (range : string) : Z :=
  if String.eqb range "7d" then 168
  else if String.eqb range "3m" then 30 * 3
  else 24.

(** The conditional that initialises [step]. *)
Definition rangeStep (range : string) : Z :=
  if String.eqb range "3m" then 86400000
  else if String.eqb range "7d" then 3600000
  else 3600000.

(** The [for] loop with [todo] iterations left, at index [i]. *)
Fixpoint pushPoints (todo : nat) (i count step currentTimestamp : Z)
    (data : list HistoricalPoint) : JS (list HistoricalPoint) :=
  match todo with
  | O => ret data
  | S todo' =>
      let timestamp := currentTimestamp - (count - i) * step in
      let* label := toLocaleTimeString timestamp in
      let* r1 := Math_random in
      let* r2 := Math_random in
      pushPoints todo' (i + 1) count step currentTimestamp
        (data ++ [ {| timestamp := timestamp;
                      time := label;
                      h_temp := round1 ((15 # 1) + r1 * (15 # 1));
                      h_humidity := round1 ((30 # 1) + r2 * (45 # 1)) |} ])
  end.

Definition createHistoricalData (range : string) : JS (list HistoricalPoint) :=
  let count := rangeCount range in
  let* currentTimestamp := Date_now in
  let step := rangeStep range in
  pushPoints (Z.to_nat count) 0 count step currentTimestamp [].

(** ** Series exporter: [convertToCsv] *)

Definition newline : string := String "010"%char EmptyString.

(** An array element that [join] turns into text. *)
Inductive cell : Type :=
| CStr (s : string)
| CNum (x : Q).

Definition ToString (c : cell) : string :=
  match c with
  | CStr s => s
  | CNum x => Number_toString x
  end.

(** [Array.prototype.join]. *)
Fixpoint Array_join (sep : string) (l : list cell) : string :=
  match l with
  | [] => EmptyString
  | [c] => ToString c
  | c :: l' => ToString c +:+ sep +:+ Array_join sep l'
  end.

(** The callback of [data.map]. *)
Definition csvRow (d : ExportPoint) : result (list cell) :=
  match toISOString (e_timestamp d) with
  | Ok iso => Ok [CStr iso; CNum (e_temp d); CNum (e_humidity d)]
  | Throw e => Throw e
  end.

(** [Array.prototype.map] with a callback that may throw. *)
Fixpoint mapR {A B : Type} (f : A -> result B) (l : list A)
  : result (list B) :=
  match l with
  | [] => Ok []
  | a :: l' =>
      match f a with
      | Throw e => Throw e
      | Ok b =>
          match mapR f l' with
          | Throw e => Throw e
          | Ok bs => Ok (b :: bs)
          end
      end
  end.

Definition headers : list cell :=
  [CStr "Timestamp"; CStr "Temperature"; CStr "Humidity"].

Definition convertToCsv (data : list ExportPoint) : result string :=
  if (length data =? 0)%nat then Ok EmptyString
  else
    match mapR csvRow data with
    | Throw e => Throw e
    | Ok rows =>
        let csvContent := Array_join "," headers +:+ newline in
        Ok (fold_left (fun csv row => csv +:+ (Array_join "," row +:+ newline))
              rows csvContent)
    end.

(** The rows [handleExport] builds from the historical series. *)
Definition dataToExport (historicalData : list HistoricalPoint)
  : list ExportPoint :=
  map (fun d => {| e_timestamp := timestamp d;
                   e_temp := h_temp d;
                   e_humidity := h_humidity d |}) historicalData.

(** ** Telemetry generator: the state of [useIoTData] *)

(** The initialiser of [deviceData]. *)
Definition initialDeviceData (initialDevices : list Device)
  : JS (gmap string DeviceEntry) :=
  forEach
    (fun (initialData : gmap string DeviceEntry) (device : Device) =>
       let* r1 := Math_random in
       let* r2 := Math_random in
       ret (<[ dev_id device :=
                 {| temp := (225 # 10) + (r1 * (5 # 1) - (25 # 10));
                    humidity := (50 # 1) + (r2 * (10 # 1) - (5 # 1));
                    status := dev_status device |} ]> initialData))
    initialDevices ∅.

(** The random walk of one metric, before rounding. *)
Definition walk (lo hi previous delta : Q) : Q :=
  Math_max lo (Math_min hi (previous + delta)).

(** The bounds of the walk: the thresholds widened by 5 for temperature
    and by 10 for humidity. *)
Definition tempLow (thresholds : Thresholds) : Q :=
  rmin (th_temp thresholds) - (5 # 1).
Definition tempHigh (thresholds : Thresholds) : Q :=
  rmax (th_temp thresholds) + (5 # 1).
Definition humidityLow (thresholds : Thresholds) : Q :=
  rmin (th_humidity thresholds) - (10 # 1).
Definition humidityHigh (thresholds : Thresholds) : Q :=
  rmax (th_humidity thresholds) + (10 # 1).

(** The two assignments under [if (newData[device.id].status)], with the
    results [r1] and [r2] of the two calls of [Math.random]. *)
Definition walkEntry (thresholds : Thresholds) (e : DeviceEntry) (r1 r2 : Q)
  : DeviceEntry :=
  {| temp := walk (tempLow thresholds) (tempHigh thresholds)
                  (temp e) (r1 * (1 # 1) - (1 # 2));
     humidity := walk (humidityLow thresholds) (humidityHigh thresholds)
                      (humidity e) (r2 * (2 # 1) - (1 # 1));
     status := status e |}.

(** The two assignments under [// Format to one decimal place]. *)
Definition roundEntry (e : DeviceEntry) : DeviceEntry :=
  {| temp := round1 (temp e);
     humidity := round1 (humidity e);
     status := status e |}.

(** The body of [initialDevices.forEach] in the interval callback; reading
    [status] of a missing entry throws. *)
Definition stepDevice (thresholds : Thresholds)
    (newData : gmap string DeviceEntry) (device : Device)
  : JS (gmap string DeviceEntry) :=
  match newData !! dev_id device with
  | None => throw TypeError
  | Some e =>
      let* e1 :=
        (if status e then
           let* r1 := Math_random in
           let* r2 := Math_random in
           ret (walkEntry thresholds e r1 r2)
         else ret e) in
      ret (<[ dev_id device := roundEntry e1 ]> newData)
  end.

(** The updater the interval callback passes to [setDeviceData].  The
    source copies the table shallowly and assigns to the entries in place;
    the model is the table one run of the updater returns. *)
Definition tick (initialDevices : list Device) (thresholds : Thresholds)
    (prevData : gmap string DeviceEntry) : JS (gmap string DeviceEntry) :=
  forEach (stepDevice thresholds) initialDevices prevData.

(** The updater of [toggleStatus]: reading [status] of a missing entry
    throws. *)
Definition toggleStatus (deviceId : string)
    (prevData : gmap string DeviceEntry) : result (gmap string DeviceEntry) :=
  match prevData !! deviceId with
  | None => Throw TypeError
  | Some e =>
      let newStatus := negb (status e) in
      Ok (<[ deviceId := {| temp := temp e; humidity := humidity e;
                            status := newStatus |} ]> prevData)
  end.

(** ** Alert evaluator: [getDeviceCurrentData] *)

Definition getDeviceCurrentData (deviceData : gmap string DeviceEntry)
    (thresholds : Thresholds) (deviceId : string) : CurrentData :=
  match deviceData !! deviceId with
  | None =>
      {| cd_temp := 0; cd_humidity := 0; cd_status := false;
         tempAlert := None; humidityAlert := None |}
  | Some data =>
      {| cd_temp := temp data;
         cd_humidity := humidity data;
         cd_status := status data;
         tempAlert :=
           Some (num_gt (temp data) (rmax (th_temp thresholds))
                 || num_lt (temp data) (rmin (th_temp thresholds)));
         humidityAlert :=
           Some (num_gt (humidity data) (rmax (th_humidity thresholds))
                 || num_lt (humidity data) (rmin (th_humidity thresholds))) |}
  end.

(** ** Live history buffer of [LiveMonitorTab] *)

(** [Array.prototype.slice(start)]: a negative [start] counts from the
    end, and the start is clamped to the array. *)
Definition slice {A : Type} (start : Z) (l : list A) : list A :=
  let len := Z.of_nat (length l) in
  let k := if start <? 0 then Z.max (len + start) 0 else Z.min start len in
  drop (Z.to_nat k) l.

(** [[...prev.slice(-9), newDataPoint]]. *)
Definition pushLive (prev : list LivePoint) (newDataPoint : LivePoint)
  : list LivePoint :=
  slice (-9) prev ++ [newDataPoint].

(** The updater the interval callback passes to [setLiveDataHistory]. *)
Definition liveHistoryUpdate (deviceData : gmap string DeviceEntry)
    (thresholds : Thresholds) (activeDeviceId : string)
    (prev : list LivePoint) : JS (list LivePoint) :=
  let* now := Date_now in
  let* label := toLocaleTimeString now in
  let newDataPoint :=
    {| l_time := label;
       l_temp := cd_temp (getDeviceCurrentData deviceData thresholds
                            activeDeviceId);
       l_humidity := cd_humidity (getDeviceCurrentData deviceData thresholds
                                    activeDeviceId) |} in
  ret (pushLive prev newDataPoint).

(** The buffer after the live points [ps] were appended in order. *)
Definition pushAll (ps : list LivePoint) (history : list LivePoint)
  : list LivePoint :=
  fold_left pushLive ps history.

(** ** Threshold store: [setThresholds] and [handleSave] *)

Definition quote : string := String "034"%char EmptyString.

Definition JSON_range (r : Range) : string :=
  "{" +:+ quote +:+ "min" +:+ quote +:+ ":" +:+ Number_toString (rmin r) +:+
  "," +:+ quote +:+ "max" +:+ quote +:+ ":" +:+ Number_toString (rmax r) +:+
  "}".

(** [JSON.stringify] of a threshold set. *)
Definition JSON_stringify (th : Thresholds) : string :=
  "{" +:+ quote +:+ "temp" +:+ quote +:+ ":" +:+ JSON_range (th_temp th) +:+
  "," +:+ quote +:+ "humidity" +:+ quote +:+ ":" +:+
  JSON_range (th_humidity th) +:+ "}".

(** The state [handleSave] reads and writes: the active threshold set of
    [App], the browser's [localStorage], and the form's own state. *)
Record Settings : Type := {
  thresholds : Thresholds;
  localStorage : gmap string string;
  localThresholds : Thresholds;
  success : bool;
  validationError : option string
}.

Definition setValidationError (v : option string) (s : Settings) : Settings :=
  {| thresholds := thresholds s; localStorage := localStorage s;
     localThresholds := localThresholds s; success := success s;
     validationError := v |}.

Definition setSuccess (b : bool) (s : Settings) : Settings :=
  {| thresholds := thresholds s; localStorage := localStorage s;
     localThresholds := localThresholds s; success := b;
     validationError := validationError s |}.

Definition setThresholds (newThresholds : Thresholds) (s : Settings)
  : Settings :=
  {| thresholds := newThresholds;
     localStorage :=
       <[ "iotThresholds" := JSON_stringify newThresholds ]> (localStorage s);
     localThresholds := localThresholds s; success := success s;
     validationError := validationError s |}.

Definition temperatureMessage : string :=
  "Temperature max limit must be greater than min limit.".

Definition humidityMessage : string :=
  "Humidity max limit must be greater than min limit.".

(** [handleSave]; the timer that clears [success] three seconds later is
    left out. *)
Definition handleSave (s : Settings) : Settings :=
  let s := setValidationError None s in
  if num_le (rmax (th_temp (localThresholds s)))
            (rmin (th_temp (localThresholds s)))
  then setValidationError (Some temperatureMessage) s
  else if num_le (rmax (th_humidity (localThresholds s)))
                 (rmin (th_humidity (localThresholds s)))
  then setValidationError (Some humidityMessage) s
  else setSuccess true (setThresholds (localThresholds s) s).

(** ** Notions used in the statements *)

(** The table holds a reading for every device. *)
Definition complete (devices : list Device) (data : gmap string DeviceEntry)
  : Prop :=
  forall d, d ∈ devices -> is_Some (data !! dev_id d).

(** The world after [k] further calls of [Math.random]. *)
Definition advance (k : nat) (w : World) : World :=
  {| tape := tape w; cursor := k + cursor w;
     clock := clock w; localeTime := localeTime w |}.

(** The entry [stepDevice] stores for an entry [e], in a world [w]. *)
Definition stepEntry (th : Thresholds) (w : World) (e : DeviceEntry)
  : DeviceEntry :=
  if status e then
    roundEntry (walkEntry th e (tape w (cursor w)) (tape w (S (cursor w))))
  else roundEntry e.

(** A number with at most one decimal place. *)
Definition oneDecimal (x : Q) : Prop := exists a : Z, (x == a # 10)%Q.


(** The text of one data row. *)
Definition csvLine (d : ExportPoint) : string :=
  isoString (e_timestamp d) +:+ "," +:+ Number_toString (e_temp d) +:+ "," +:+
  Number_toString (e_humidity d) +:+ newline.

(** The data rows, one after the other. *)
Fixpoint csvLines (data : list ExportPoint) : string :=
  match data with
  | [] => EmptyString
  | d :: data' => csvLine d +:+ csvLines data'
  end.

(** The array [convertToCsv] builds for one point with a valid date. *)
Definition rowCells (d : ExportPoint) : list cell :=
  [CStr (isoString (e_timestamp d)); CNum (e_temp d); CNum (e_humidity d)].

(** ** Sample inputs *)

(** A reading table for the three devices, the third one unpowered. *)
Definition sampleData : gmap string DeviceEntry :=
  <[ "dev-001" := {| temp := 18 # 1; humidity := 60 # 1; status := true |} ]>
  (<[ "dev-002" := {| temp := 261 # 10; humidity := 395 # 10; status := true |} ]>
  (<[ "dev-003" := {| temp := 224 # 10; humidity := 512 # 10; status := false |} ]>
   ∅)).

(** A world whose random source always answers [r]. *)
Definition constWorld (r : Q) (now : Z) : World :=
  {| tape := fun _ => r; cursor := 0; clock := now;
     localeTime := fun _ => EmptyString |}.

(** Thresholds with a temperature minimum that has two decimal places. *)
Definition fineThresholds : Thresholds :=
  {| th_temp := {| rmin := 1804 # 100; rmax := 25 # 1 |};
     th_humidity := {| rmin := 40 # 1; rmax := 60 # 1 |} |}.

(** The first and the third device of [INITIAL_DEVICES]. *)
Definition dev1 : Device :=
  {| dev_id := "dev-001"; dev_name := "Server Rack 1";
     dev_status := true; dev_location := "Data Center A" |}.

Definition dev3 : Device :=
  {| dev_id := "dev-003"; dev_name := "Cold Storage A";
     dev_status := false; dev_location := "Processing Plant" |}.


(** A settings form whose two ranges are both inverted. *)
Definition invalidForm : Settings :=
  {| thresholds := DEFAULT_THRESHOLDS;
     localStorage := ∅;
     localThresholds :=
       {| th_temp := {| rmin := 25 # 1; rmax := 18 # 1 |};
          th_humidity := {| rmin := 60 # 1; rmax := 40 # 1 |} |};
     success := false;
     validationError := None |}.

(** A live point numbered [n]. *)
Definition pt (n : Z) : LivePoint :=
  {| l_time := EmptyString; l_temp := n # 1; l_humidity := 50 # 1 |}.

(** ** Runs of the updaters *)

(** One state update of [deviceData]: the interval's tick or a toggle. *)
Inductive action : Type :=
| Tick
| Toggle (deviceId : string).

(** The updater of an action, applied to the table. *)
Definition act (devices : list Device) (th : Thresholds) (a : action)
    (data : gmap string DeviceEntry) : JS (gmap string DeviceEntry) :=
  match a with
  | Tick => tick devices th data
  | Toggle deviceId =>
      fun w =>
        match toggleStatus deviceId data with
        | Ok data' => Ok (data', w)
        | Throw e => Throw e
        end
  end.

(** The updaters of a sequence of actions, applied in order. *)
Definition run (devices : list Device) (th : Thresholds) (acts : list action)
    (data : gmap string DeviceEntry) : JS (gmap string DeviceEntry) :=
  forEach (fun data a => act devices th a data) acts data.

(** [n] ticks in a row. *)
Definition ticks (n : nat) (devices : list Device) (th : Thresholds)
    (data : gmap string DeviceEntry) : JS (gmap string DeviceEntry) :=
  run devices th (replicate n Tick) data.



(** An entry as the initialiser seeds it for one of the devices. *)
Definition seeded (devices : list Device) (i : string) (e : DeviceEntry)
  : Prop :=
  (exists d, d ∈ devices /\ dev_id d = i /\ status e = dev_status d) /\
  (20 # 1 <= temp e)%Q /\ (temp e < 25 # 1)%Q /\
  (45 # 1 <= humidity e)%Q /\ (humidity e < 55 # 1)%Q.

(** A point as [createHistoricalData] draws it: both values have one
    decimal place, the temperature lies in [15, 30] and the humidity in
    [30, 75]. *)
Definition drawnPoint (p : HistoricalPoint) : Prop :=
  oneDecimal (h_temp p) /\ oneDecimal (h_humidity p) /\
  (15 # 1 <= h_temp p)%Q /\ (h_temp p <= 30 # 1)%Q /\
  (30 # 1 <= h_humidity p)%Q /\ (h_humidity p <= 75 # 1)%Q.

(** ** The active device of [LiveMonitorTab] *)

(** [devices[0].id]: reading [id] of [undefined] throws. *)
Definition firstDeviceId (devices : list Device) : result string :=
  match devices with
  | [] => Throw TypeError
  | d :: _ => Ok (dev_id d)
  end.

(** [devices.find(d => getDeviceCurrentData(d.id).status)?.id
    || devices[0].id]: the right operand is taken when no device is found
    or the id found is the empty string. *)
Definition activeDeviceId (devices : list Device)
    (deviceData : gmap string DeviceEntry) (thresholds : Thresholds)
  : result string :=
  match find (fun d => cd_status (getDeviceCurrentData deviceData thresholds
                                     (dev_id d))) devices with
  | Some d =>
      if String.eqb (dev_id d) EmptyString then firstDeviceId devices
      else Ok (dev_id d)
  | None => firstDeviceId devices
  end.

(** The device is reported as switched on. *)
Definition reportedOn (deviceData : gmap string DeviceEntry) (th : Thresholds)
    (d : Device) : bool :=
  cd_status (getDeviceCurrentData deviceData th (dev_id d)).

(** ** Regular expressions *)

(** The fragment of regular expressions the login form uses, over strings
    of code units below 256. *)
Inductive regex : Type :=
| Void
| Eps
| Chars (p : ascii -> bool)
| Cat (r1 r2 : regex)
| Alt (r1 r2 : regex)
| Star (r : regex).

(** [r+]. *)
Definition Plus (r : regex) : regex := Cat r (Star r).

Fixpoint nullable (r : regex) : bool :=
  match r with
  | Void => false
  | Eps => true
  | Chars _ => false
  | Cat r1 r2 => nullable r1 && nullable r2
  | Alt r1 r2 => nullable r1 || nullable r2
  | Star _ => true
  end.

(** The expression for what may follow [c] in a match of [r]. *)
Fixpoint deriv (c : ascii) (r : regex) : regex :=
  match r with
  | Void => Void
  | Eps => Void
  | Chars p => if p c then Eps else Void
  | Cat r1 r2 =>
      if nullable r1 then Alt (Cat (deriv c r1) r2) (deriv c r2)
      else Cat (deriv c r1) r2
  | Alt r1 r2 => Alt (deriv c r1) (deriv c r2)
  | Star r1 => Cat (deriv c r1) (Star r1)
  end.

(** [/^r$/.test(s)]. *)
Fixpoint regex_test (r : regex) (s : string) : bool :=
  match s with
  | EmptyString => nullable r
  | String c s' => regex_test (deriv c r) s'
  end.

(** The strings an expression matches in full. *)
Inductive matches : regex -> string -> Prop :=
| m_eps : matches Eps EmptyString
| m_chars p c : p c = true -> matches (Chars p) (String c EmptyString)
| m_cat r1 r2 s1 s2 :
    matches r1 s1 -> matches r2 s2 -> matches (Cat r1 r2) (s1 +:+ s2)
| m_alt_l r1 r2 s : matches r1 s -> matches (Alt r1 r2) s
| m_alt_r r1 r2 s : matches r2 s -> matches (Alt r1 r2) s
| m_star_nil r : matches (Star r) EmptyString
| m_star_cons r s1 s2 :
    matches r s1 -> matches (Star r) s2 -> matches (Star r) (s1 +:+ s2).

(** [\s] on code units below 256: tab, line feed, vertical tab, form
    feed, carriage return, space and no-break space. *)
Definition isSpace (c : ascii) : bool :=
  let n := nat_of_ascii c in
  ((9 <=? n) && (n <=? 13) || (n =? 32) || (n =? 160))%nat.

(** [[^\s@]]. *)
Definition notSpaceAt (c : ascii) : bool :=
  negb (isSpace c || Ascii.eqb c "@").

(** [/^[^\s@]+@[^\s@]+\.[^\s@]+$/]. *)
Definition emailPattern : regex :=
  Cat (Plus (Chars notSpaceAt))
    (Cat (Chars (Ascii.eqb "@"))
       (Cat (Plus (Chars notSpaceAt))
          (Cat (Chars (Ascii.eqb ".")) (Plus (Chars notSpaceAt))))).

(** Every code unit of [s] satisfies [p]. *)
Fixpoint allChars (p : ascii -> bool) (s : string) : bool :=
  match s with
  | EmptyString => true
  | String c s' => p c && allChars p s'
  end.

(** ** Authentication: [useAuth] and the view of [App] *)

Definition LOGIN_email : string := "admin@example.com".
Definition LOGIN_password : string := "password123".

(** The state of [useAuth] with the [view] of [App] and the browser's
    [localStorage]. *)
Record Session : Type := {
  view : string;
  isAuthenticated : bool;
  error : option string;
  storage : gmap string string
}.

(** The state a page load starts from. *)
Definition initialSession (stored : gmap string string) : Session :=
  {| view := "landing";
     isAuthenticated := bool_decide (stored !! "authToken" = Some "valid");
     error := None;
     storage := stored |}.

Definition loginMessage : string := "Invalid email or password.".

(** [login]: the result and the state after it. *)
Definition login (email password : string) (s : Session) : bool * Session :=
  if String.eqb email LOGIN_email && String.eqb password LOGIN_password then
    (true,
     {| view := "dashboard";
        isAuthenticated := true;
        error := None;
        storage := <[ "authToken" := "valid" ]> (storage s) |})
  else
    (false,
     {| view := view s;
        isAuthenticated := isAuthenticated s;
        error := Some loginMessage;
        storage := storage s |}).

Definition logout (s : Session) : Session :=
  {| view := "landing";
     isAuthenticated := false;
     error := error s;
     storage := delete "authToken" (storage s) |}.

Definition setView (v : string) (s : Session) : Session :=
  {| view := v; isAuthenticated := isAuthenticated s;
     error := error s; storage := storage s |}.

(** What [App] renders. *)
Inductive Content : Type := DashboardLayout | LoginForm | LandingPage.

Definition content (s : Session) : Content :=
  if isAuthenticated s && negb (String.eqb (view s) "landing")
     && negb (String.eqb (view s) "login")
  then DashboardLayout
  else if String.eqb (view s) "login" then LoginForm
  else LandingPage.

(** The state of the login form. *)
Record LoginFields : Type := {
  email : string;
  password : string;
  formError : option string
}.

Definition setFormError (v : option string) (f : LoginFields) : LoginFields :=
  {| email := email f; password := password f; formError := v |}.

Definition requiredMessage : string := "Both fields are required.".
Definition formatMessage : string := "Invalid email format.".

(** [handleSubmit] of the login form; [error] is the value the form was
    rendered with, so the one from before this call of [login]. *)
Definition handleSubmit (f : LoginFields) (s : Session)
  : LoginFields * Session :=
  let f := setFormError None f in
  if String.eqb (email f) EmptyString || String.eqb (password f) EmptyString
  then (setFormError (Some requiredMessage) f, s)
  else if negb (regex_test emailPattern (email f))
  then (setFormError (Some formatMessage) f, s)
  else
    let '(ok, s') := login (email f) (password f) s in
    if ok then (f, s') else (setFormError (error s) f, s').

(** A value that is neither [null] nor the empty string. *)
Definition truthy (v : option string) : bool :=
  match v with
  | Some t => negb (String.eqb t EmptyString)
  | None => false
  end.

(** [formError || error], the message the form shows when it is truthy. *)
Definition shownError (f : LoginFields) (s : Session) : option string :=
  if truthy (formError f) then formError f else error s.

(** What the user does: the buttons of the three pages. *)
Inductive event : Type :=
| ClickLogin
| ClickBackToHome
| Submit (f : LoginFields)
| ClickLogout.

(** The state after an event; a button acts only on the page that shows
    it. *)
Definition react (ev : event) (s : Session) : Session :=
  match ev, content s with
  | ClickLogin, LandingPage => setView "login" s
  | ClickBackToHome, LoginForm => setView "landing" s
  | Submit f, LoginForm => snd (handleSubmit f s)
  | ClickLogout, DashboardLayout => logout s
  | _, _ => s
  end.

Definition reacts (evs : list event) (s : Session) : Session :=
  fold_left (fun s ev => react ev s) evs s.

(** What holds of the session in every state the events can reach. *)
Definition sessionInv (s : Session) : Prop :=
  (isAuthenticated s = true <-> storage s !! "authToken" = Some "valid") /\
  (view s = "landing" \/ view s = "login" \/ view s = "dashboard") /\
  (view s = "dashboard" -> isAuthenticated s = true) /\
  (error s = None \/ error s = Some loginMessage).

(** ** Text input of the settings form: [parseFloat] and [split] *)

(** The result of [parseFloat]. *)
Inductive parsed : Type :=
| PNaN
| PInfinity (negative : bool)
| PNum (x : Q).

Definition isDigit (c : ascii) : bool :=
  let n := nat_of_ascii c in ((48 <=? n) && (n <=? 57))%nat.

Definition digitValue (c : ascii) : Z := Z.of_nat (nat_of_ascii c) - 48.

(** [TrimString(s, start)]. *)
Fixpoint trimStart (s : string) : string :=
  match s with
  | String c s' => if isSpace c then trimStart s' else s
  | EmptyString => EmptyString
  end.

(** The longest run of decimal digits at the start of [s]: its value
    after [acc], its length after [n], and the rest of [s]. *)
Fixpoint takeDigits (s : string) (acc : Z) (n : nat) : Z * nat * string :=
  match s with
  | String c s' =>
      if isDigit c then takeDigits s' (acc * 10 + digitValue c) (S n)
      else (acc, n, s)
  | EmptyString => (acc, n, s)
  end.

(** An [ExponentPart] at the start of [s], or none: [e] or [E], an
    optional sign, and at least one digit. *)
Definition exponentOf (s : string) : Z :=
  match s with
  | String c r =>
      if Ascii.eqb c "e" || Ascii.eqb c "E" then
        let '(negative, r') :=
          match r with
          | String "-" t => (true, t)
          | String "+" t => (false, t)
          | _ => (false, r)
          end in
        let '(e, n, _) := takeDigits r' 0 0 in
        if (n =? 0)%nat then 0 else if negative then - e else e
      else 0
  | EmptyString => 0
  end.

(** [parseFloat]: the value of the longest prefix of the trimmed text
    that is a [StrDecimalLiteral], or [NaN] when there is none. *)
Definition parseFloat (s : string) : parsed :=
  let s := trimStart s in
  let '(negative, s) :=
    match s with
    | String "-" r => (true, r)
    | String "+" r => (false, r)
    | _ => (false, s)
    end in
  if String.prefix "Infinity" s then PInfinity negative
  else
    let '(ip, ni, s1) := takeDigits s 0 0 in
    let '(fp, nf, s2) :=
      match s1 with
      | String "." r => takeDigits r 0 0
      | _ => (0, 0%nat, s1)
      end in
    if ((ni =? 0) && (nf =? 0))%nat then PNaN
    else
      let mantissa :=
        (((ip * 10 ^ Z.of_nat nf + fp) # 1) * pow10 (- Z.of_nat nf))%Q in
      let x := (mantissa * pow10 (exponentOf s2))%Q in
      PNum (if negative then (- x)%Q else x).

(** [s.split(sep)] for a separator of one code unit. *)
Fixpoint split (sep : ascii) (s : string) : list string :=
  match s with
  | EmptyString => [EmptyString]
  | String c s' =>
      if Ascii.eqb c sep then EmptyString :: split sep s'
      else
        match split sep s' with
        | first :: rest => String c first :: rest
        | [] => [String c EmptyString]
        end
  end.

(** ** [handleChange] of the threshold form *)

(** [{ ...r, [limit]: v }] for the two properties a range has. *)
Definition setLimit (limit : string) (v : Q) (r : Range) : option Range :=
  if String.eqb limit "min" then Some {| rmin := v; rmax := rmax r |}
  else if String.eqb limit "max" then Some {| rmin := rmin r; rmax := v |}
  else None.

(** [{ ...prev, [type]: { ...prev[type], [limit]: v } }] for the two
    properties a threshold set has. *)
Definition setBound (type limit : string) (v : Q) (prev : Thresholds)
  : option Thresholds :=
  if String.eqb type "temp" then
    match setLimit limit v (th_temp prev) with
    | Some r => Some {| th_temp := r; th_humidity := th_humidity prev |}
    | None => None
    end
  else if String.eqb type "humidity" then
    match setLimit limit v (th_humidity prev) with
    | Some r => Some {| th_temp := th_temp prev; th_humidity := r |}
    | None => None
    end
  else None.

(** [parseFloat(value) || 0] when it is a finite number. *)
Definition numberOrZero (value : string) : option Q :=
  match parseFloat value with
  | PNaN => Some 0%Q
  | PNum x => Some (if Qeq_bool x 0 then 0%Q else x)
  | PInfinity _ => None
  end.

(** [handleChange] for an input with this [name] and [value].  The
    result is [None] where the source leaves the model: an infinite
    number, or a name that makes a property the records do not have. *)
Definition handleChange (name value : string) (s : Settings)
  : option Settings :=
  match split "-" name, numberOrZero value with
  | type :: limit :: _, Some v =>
      match setBound type limit v (localThresholds s) with
      | Some local =>
          Some {| thresholds := thresholds s;
                  localStorage := localStorage s;
                  localThresholds := local;
                  success := false;
                  validationError := None |}
      | None => None
      end
  | _, _ => None
  end.

(** What the user does on the settings form. *)
Inductive formEvent : Type :=
| Change (name value : string)
| Save.

Definition formReact (ev : formEvent) (s : Settings) : option Settings :=
  match ev with
  | Change name value => handleChange name value s
  | Save => Some (handleSave s)
  end.

Fixpoint formRun (evs : list formEvent) (s : Settings) : option Settings :=
  match evs with
  | [] => Some s
  | ev :: evs' =>
      match formReact ev s with
      | Some s' => formRun evs' s'
      | None => None
      end
  end.

(** What is stored under [iotThresholds], if anything, is the JSON text
    of the active threshold set. *)
Definition persisted (s : Settings) : Prop :=
  forall text, localStorage s !! "iotThresholds" = Some text ->
               text = JSON_stringify (thresholds s).

(** The range [r] lies within the range [r']. *)
Definition rangeWithin (r r' : Range) : Prop :=
  (rmin r' <= rmin r)%Q /\ (rmax r <= rmax r')%Q.

(** ** More sample inputs *)


(** The sample table with the first device toggled. *)
Definition toggledData : gmap string DeviceEntry :=
  <[ "dev-001" := {| temp := 18 # 1; humidity := 60 # 1; status := false |} ]>
    sampleData.

(** A settings form at its defaults. *)
Definition defaultForm : Settings :=
  {| thresholds := DEFAULT_THRESHOLDS;
     localStorage := ∅;
     localThresholds := DEFAULT_THRESHOLDS;
     success := false;
     validationError := None |}.

(** Edits and saves: an inverted range is saved, then a valid one. *)
Definition sampleEdits : list formEvent :=
  [Change "temp-max" "12"; Save; Change "temp-max" "27.5"; Save].

(** ** Ranges of the date fields *)

(** [pad0 width n] has [width] characters for the [count] integers from
    [n] on. *)
Fixpoint paddedFrom (width : nat) (count : nat) (n : Z) : bool :=
  match count with
  | O => true
  | S count' =>
      (String.length (pad0 width n) =? width)%nat
      && paddedFrom width count' (n + 1)
  end.

(** [pad0 width n] has [width] characters, for every [n] below [bound]. *)
Definition padded (width : nat) (bound : nat) : bool :=
  paddedFrom width bound 0.

(** The first and the last time value of the years 0 to 9999. *)
Definition minFourDigit : Z := -62167219200000.
Definition maxFourDigit : Z := 253402300799999.

(** The text of [m / 10] parses back to [m / 10]. *)
Definition parsesBack (m : Z) : bool :=
  match parseFloat (Number_toString (m # 10)) with
  | PNum x => Qeq_bool x (m # 10)
  | _ => false
  end.

(** [parsesBack] for the [n] integers from [m] on. *)
Definition allParseBack (n : nat) (m : Z) : bool :=
  forallb (fun k => parsesBack (m + Z.of_nat k)) (seq 0 n).

(* ===================================================================== *)
(** * Properties                                                         *)
(* ===================================================================== *)

(** Splits a conjunction into all its parts. *)
Ltac conjs := repeat lazymatch goal with |- _ /\ _ => split end.

(** ** Comparisons *)

Lemma num_lt_iff (x y : Q) : num_lt x y = true <-> (x < y)%Q.
Proof.
  unfold num_lt. rewrite Qlt_alt.
  destruct (x ?= y)%Q; split; congruence.
Qed.

Lemma num_gt_iff (x y : Q) : num_gt x y = true <-> (y < x)%Q.
Proof. apply num_lt_iff. Qed.

Lemma num_le_iff (x y : Q) : num_le x y = true <-> (x <= y)%Q.
Proof. apply Qle_bool_iff. Qed.

Lemma num_lt_false_iff (x y : Q) : num_lt x y = false <-> (y <= x)%Q.
Proof.
  rewrite <- not_true_iff_false, num_lt_iff. split.
  - apply Qnot_lt_le.
  - apply Qle_not_lt.
Qed.

Lemma num_le_false_iff (x y : Q) : num_le x y = false <-> (y < x)%Q.
Proof.
  rewrite <- not_true_iff_false, num_le_iff. split.
  - apply Qnot_le_lt.
  - apply Qlt_not_le.
Qed.

(** The alert expression [v > max || v < min] as a proposition. *)
Lemma alert_iff (v lo hi : Q) :
  num_gt v hi || num_lt v lo = true <-> (v < lo)%Q \/ (hi < v)%Q.
Proof.
  rewrite orb_true_iff, num_gt_iff, num_lt_iff. tauto.
Qed.

(** Inside the closed range, bounds included, the expression is false. *)
Lemma alert_inside (v lo hi : Q) :
  (lo <= v)%Q -> (v <= hi)%Q -> num_gt v hi || num_lt v lo = false.
Proof.
  intros Hlo Hhi. apply not_true_iff_false. rewrite alert_iff.
  intros [H | H]; [apply (Qlt_not_le _ _ H Hlo) | apply (Qlt_not_le _ _ H Hhi)].
Qed.

(** ** The calendar *)

Lemma DayFromYear_shift (y : Z) :
  DayFromYear (y + 400) = DayFromYear y + 146097.
Proof.
  unfold DayFromYear.
  replace (y + 400 - 1969) with (y - 1969 + 100 * 4) by lia.
  replace (y + 400 - 1901) with (y - 1901 + 4 * 100) by lia.
  replace (y + 400 - 1601) with (y - 1601 + 1 * 400) by lia.
  rewrite !Z.div_add by lia. lia.
Qed.

Lemma InLeapYear_shift (y : Z) : InLeapYear (y + 400) = InLeapYear y.
Proof.
  unfold InLeapYear.
  replace ((y + 400) mod 4) with (y mod 4)
    by (replace (y + 400) with (y + 100 * 4) by lia; now rewrite Z.mod_add).
  replace ((y + 400) mod 100) with (y mod 100)
    by (replace (y + 400) with (y + 4 * 100) by lia; now rewrite Z.mod_add).
  replace ((y + 400) mod 400) with (y mod 400)
    by (replace (y + 400) with (y + 1 * 400) by lia; now rewrite Z.mod_add).
  reflexivity.
Qed.

(** The calendar repeats every 146097 days, 400 years later. *)
Lemma civil_from_days_shift (day : Z) :
  civil_from_days (day + 146097) =
    let '(y, m, d) := civil_from_days day in (y + 400, m, d).
Proof.
  unfold civil_from_days. cbv zeta.
  replace (day + 146097 + 719468) with (day + 719468 + 1 * 146097) by lia.
  rewrite Z.div_add by lia.
  replace (day + 719468 + 1 * 146097 - ((day + 719468) / 146097 + 1) * 146097)
    with (day + 719468 - (day + 719468) / 146097 * 146097) by lia.
  f_equal. f_equal. lia.
Qed.

Lemma calendar_agrees_shift (day : Z) :
  calendar_agrees (day + 146097) = calendar_agrees day.
Proof.
  unfold calendar_agrees. rewrite civil_from_days_shift.
  destruct (civil_from_days day) as [[y m] d].
  replace (y + 400 + 1) with (y + 1 + 400) by lia.
  rewrite !DayFromYear_shift, InLeapYear_shift.
  replace (day + 146097 - (DayFromYear y + 146097))
    with (day - DayFromYear y) by lia.
  destruct (monthAndDate (day - DayFromYear y) (InLeapYear y)) as [m' d'].
  assert (Hle : (DayFromYear y + 146097 <=? day + 146097)
                = (DayFromYear y <=? day)).
  { destruct (Z.leb_spec (DayFromYear y + 146097) (day + 146097)),
             (Z.leb_spec (DayFromYear y) day); (reflexivity || lia). }
  assert (Hlt : (day + 146097 <? DayFromYear (y + 1) + 146097)
                = (day <? DayFromYear (y + 1))).
  { destruct (Z.ltb_spec (day + 146097) (DayFromYear (y + 1) + 146097)),
             (Z.ltb_spec day (DayFromYear (y + 1))); (reflexivity || lia). }
  now rewrite Hle, Hlt.
Qed.

Lemma calendar_agrees_cycles (day : Z) (q : Z) :
  calendar_agrees (day + q * 146097) = calendar_agrees day.
Proof.
  induction q as [| q IH | q IH] using Z.peano_ind.
  - f_equal. lia.
  - replace (day + Z.succ q * 146097) with (day + q * 146097 + 146097) by lia.
    now rewrite calendar_agrees_shift.
  - rewrite <- IH.
    replace (day + q * 146097) with (day + Z.pred q * 146097 + 146097) by lia.
    now rewrite calendar_agrees_shift.
Qed.

Lemma all_days_spec (n : nat) : forall day : Z,
  all_days n day = true ->
  forall k : Z, 0 <= k < Z.of_nat n -> calendar_agrees (day + k) = true.
Proof.
  induction n as [| n IH]; intros day H k Hk; [lia |].
  cbn [all_days] in H. apply andb_true_iff in H as [H0 H1].
  destruct (Z.eq_dec k 0) as [-> | Hne].
  - now rewrite Z.add_0_r.
  - replace (day + k) with (day + 1 + (k - 1)) by lia.
    apply (IH _ H1). lia.
Qed.

(** One full cycle, from 1 January 1800, checked by evaluation. *)
Lemma calendar_cycle : all_days cycleDays (-62091) = true.
Proof. vm_compute. reflexivity. Qed.

(** On every day, [civil_from_days] gives the year, month and date that
    ECMA-262 defines by [DayFromYear], [InLeapYear] and its month table. *)
Lemma calendar_agrees_all (day : Z) : calendar_agrees day = true.
Proof.
  pose proof (Z.div_mod (day + 62091) 146097 ltac:(lia)) as Hdm.
  pose proof (Z.mod_pos_bound (day + 62091) 146097 ltac:(lia)) as Hr.
  replace day
    with (-62091 + (day + 62091) mod 146097 + (day + 62091) / 146097 * 146097)
    by lia.
  rewrite calendar_agrees_cycles.
  apply (all_days_spec _ _ calendar_cycle).
  unfold cycleDays. rewrite Z2Nat.id; lia.
Qed.

(** ** Checks of the built-in functions against known results *)

Example toISOString_epoch : toISOString 0 = Ok "1970-01-01T00:00:00.000Z".
Proof. reflexivity. Qed.

Example toISOString_leap_day :
  toISOString 1709251199999 = Ok "2024-02-29T23:59:59.999Z".
Proof. vm_compute. reflexivity. Qed.

Example toISOString_before_epoch :
  toISOString (-1) = Ok "1969-12-31T23:59:59.999Z".
Proof. vm_compute. reflexivity. Qed.

Example toISOString_last : toISOString maxTime = Ok "+275760-09-13T00:00:00.000Z".
Proof. vm_compute. reflexivity. Qed.

Example toISOString_first :
  toISOString (- maxTime) = Ok "-271821-04-20T00:00:00.000Z".
Proof. vm_compute. reflexivity. Qed.

Example toISOString_out_of_range : toISOString (maxTime + 1) = Throw RangeError.
Proof. vm_compute. reflexivity. Qed.

Example Number_toString_samples :
  map Number_toString
    [20 # 1; 225 # 10; - 32 # 10; 0; 1 # 10; 5 # 100; 1 # 1000000;
     1 # 10000000; 15 # 100000000; 123456789012345680000 # 1;
     1000000000000000000000 # 1]%Q
  = ["20"; "22.5"; "-3.2"; "0"; "0.1"; "0.05"; "0.000001";
     "1e-7"; "1.5e-7"; "123456789012345680000"; "1e+21"].
Proof. vm_compute. reflexivity. Qed.

Example round1_samples :
  map round1 [2286 # 100; 25 # 100; - 125 # 100; - 4 # 100; 1304 # 100]%Q
  = [229 # 10; 3 # 10; - 13 # 10; 0 # 10; 130 # 10]%Q.
Proof. vm_compute. reflexivity. Qed.

Example JSON_stringify_default :
  JSON_stringify DEFAULT_THRESHOLDS
  = "{" +:+ quote +:+ "temp" +:+ quote +:+ ":{" +:+ quote +:+ "min" +:+ quote
    +:+ ":18," +:+ quote +:+ "max" +:+ quote +:+ ":25}," +:+ quote
    +:+ "humidity" +:+ quote +:+ ":{" +:+ quote +:+ "min" +:+ quote +:+ ":40,"
    +:+ quote +:+ "max" +:+ quote +:+ ":60}}".
Proof. vm_compute. reflexivity. Qed.

(** ** Alert evaluator *)

Section Alerts.

Variable deviceData : gmap string DeviceEntry.
Variable th : Thresholds.
Variable deviceId : string.

Lemma getDeviceCurrentData_present (data : DeviceEntry) :
  deviceData !! deviceId = Some data ->
  getDeviceCurrentData deviceData th deviceId =
    {| cd_temp := temp data;
       cd_humidity := humidity data;
       cd_status := status data;
       tempAlert :=
         Some (num_gt (temp data) (rmax (th_temp th))
               || num_lt (temp data) (rmin (th_temp th)));
       humidityAlert :=
         Some (num_gt (humidity data) (rmax (th_humidity th))
               || num_lt (humidity data) (rmin (th_humidity th))) |}.
Proof. unfold getDeviceCurrentData. intros ->. reflexivity. Qed.

(** C1.  For a device with a reading, each alert flag is set, and it is
    true exactly when the metric is strictly below the threshold minimum
    or strictly above the threshold maximum.  Under the invariant
    [min < max] of a threshold set, a value equal to [min] or equal to
    [max] does not alert, for temperature and for humidity. *)
Theorem alert_strictly_outside (data : DeviceEntry) :
  deviceData !! deviceId = Some data ->
  let r := getDeviceCurrentData deviceData th deviceId in
  (tempAlert r = Some true <->
     (temp data < rmin (th_temp th))%Q \/ (rmax (th_temp th) < temp data)%Q) /\
  (humidityAlert r = Some true <->
     (humidity data < rmin (th_humidity th))%Q \/
     (rmax (th_humidity th) < humidity data)%Q) /\
  (is_Some (tempAlert r) /\ is_Some (humidityAlert r)) /\
  (validThresholds th ->
   ((temp data == rmin (th_temp th))%Q \/ (temp data == rmax (th_temp th))%Q ->
      tempAlert r = Some false) /\
   ((humidity data == rmin (th_humidity th))%Q \/
    (humidity data == rmax (th_humidity th))%Q ->
      humidityAlert r = Some false)).
Proof.
  intros Hdata r. subst r.
  rewrite (getDeviceCurrentData_present _ Hdata). cbn [tempAlert humidityAlert].
  split; [| split; [| split; [| intros [Ht Hh]; split]]].
  - split; [intros [= H] | intros H; f_equal]; now apply alert_iff.
  - split; [intros [= H] | intros H; f_equal]; now apply alert_iff.
  - split; eexists; reflexivity.
  - intros [H | H]; f_equal; apply alert_inside; lra.
  - intros [H | H]; f_equal; apply alert_inside; lra.
Qed.


End Alerts.

Lemma alert_strictly_outside_witness :
  tempAlert (getDeviceCurrentData sampleData DEFAULT_THRESHOLDS "dev-001")
    = Some false /\
  humidityAlert (getDeviceCurrentData sampleData DEFAULT_THRESHOLDS "dev-001")
    = Some false /\
  tempAlert (getDeviceCurrentData sampleData DEFAULT_THRESHOLDS "dev-002")
    = Some true.
Proof.
  assert (Hv : validThresholds DEFAULT_THRESHOLDS)
    by (split; reflexivity).
  destruct (alert_strictly_outside sampleData DEFAULT_THRESHOLDS "dev-001"
              {| temp := 18 # 1; humidity := 60 # 1; status := true |}
              eq_refl) as (_ & _ & _ & Hb).
  destruct (Hb Hv) as [Ht Hh].
  destruct (alert_strictly_outside sampleData DEFAULT_THRESHOLDS "dev-002"
              {| temp := 261 # 10; humidity := 395 # 10; status := true |}
              eq_refl) as (Hout & _).
  split; [apply Ht; left; reflexivity |].
  split; [apply Hh; right; reflexivity |].
  apply Hout. right. reflexivity.
Defined.


(** ** Rounding to one decimal place *)

(** From 10^21 on, [toFixed] prints the number itself. *)
Lemma round1_large (x : Q) :
  ((1000000000000000000000 # 1) <= Qabs x)%Q -> round1 x = x.
Proof.
  unfold round1. intros H. apply Qle_bool_iff in H. now rewrite H.
Qed.

Lemma Qmake_tenth (m : Z) : (m # 10 == inject_Z m * (1 # 10))%Q.
Proof. unfold Qeq, inject_Z, Qmult. simpl. lia. Qed.

(** Below that, the result is [m / 10] for an integer [m] nearest to
    [10 x]. *)
Lemma round1_nearest (x : Q) :
  round1 x = x \/
  exists m : Z,
    round1 x = m # 10 /\
    (x * (10 # 1) - (1 # 2) <= inject_Z m)%Q /\
    (inject_Z m <= x * (10 # 1) + (1 # 2))%Q.
Proof.
  unfold round1.
  destruct (Qle_bool _ (Qabs x)); [now left | right].
  destruct (num_lt x 0) eqn:Hneg.
  - apply num_lt_iff in Hneg.
    exists (- Qfloor (Qabs x * (10 # 1) + (1 # 2))). split; [reflexivity |].
    assert (Ha : (Qabs x == - x)%Q) by (apply Qabs_neg; lra).
    rewrite Ha, inject_Z_opp.
    pose proof (Qfloor_le (- x * (10 # 1) + (1 # 2))) as Hl.
    pose proof (Qlt_floor (- x * (10 # 1) + (1 # 2))) as Hu.
    rewrite inject_Z_plus in Hu. change (inject_Z 1) with 1%Q in Hu.
    split; lra.
  - apply num_lt_false_iff in Hneg.
    exists (Qfloor (Qabs x * (10 # 1) + (1 # 2))). split; [reflexivity |].
    assert (Ha : (Qabs x == x)%Q) by (apply Qabs_pos; lra).
    rewrite Ha.
    pose proof (Qfloor_le (x * (10 # 1) + (1 # 2))) as Hl.
    pose proof (Qlt_floor (x * (10 # 1) + (1 # 2))) as Hu.
    rewrite inject_Z_plus in Hu. change (inject_Z 1) with 1%Q in Hu.
    split; lra.
Qed.


(** Rounding does not cross a bound that has one decimal place. *)
Lemma round1_ge_tenth (a : Z) (x : Q) : (a # 10 <= x)%Q -> (a # 10 <= round1 x)%Q.
Proof.
  intros H.
  destruct (round1_nearest x) as [-> | (m & -> & Hl & Hu)]; [exact H |].
  rewrite (Qmake_tenth a) in H.
  assert (Hz : a <= m).
  { destruct (Z_le_gt_dec a m) as [|Hgt]; [assumption | exfalso].
    assert (Hq : (inject_Z m <= inject_Z (a - 1))%Q) by (rewrite <- Zle_Qle; lia).
    unfold Zminus in Hq. rewrite inject_Z_plus, inject_Z_opp in Hq.
    change (inject_Z 1) with 1%Q in Hq. lra. }
  rewrite (Qmake_tenth a), (Qmake_tenth m). rewrite Zle_Qle in Hz. lra.
Qed.

Lemma round1_le_tenth (b : Z) (x : Q) : (x <= b # 10)%Q -> (round1 x <= b # 10)%Q.
Proof.
  intros H.
  destruct (round1_nearest x) as [-> | (m & -> & Hl & Hu)]; [exact H |].
  rewrite (Qmake_tenth b) in H.
  assert (Hz : m <= b).
  { destruct (Z_le_gt_dec m b) as [|Hgt]; [assumption | exfalso].
    assert (Hq : (inject_Z (b + 1) <= inject_Z m)%Q) by (rewrite <- Zle_Qle; lia).
    rewrite inject_Z_plus in Hq.
    change (inject_Z 1) with 1%Q in Hq. lra. }
  rewrite (Qmake_tenth b), (Qmake_tenth m). rewrite Zle_Qle in Hz. lra.
Qed.

(** A value with one decimal place is a fixed point of the rounding. *)
Lemma round1_tenth (m : Z) : round1 (m # 10) = m # 10.
Proof.
  unfold round1.
  destruct (Qle_bool _ (Qabs (m # 10))); [reflexivity |].
  assert (Hf : Qfloor (Qabs (m # 10) * (10 # 1) + (1 # 2)) = Z.abs m).
  { unfold Qfloor, Qabs, Qmult, Qplus. simpl Qnum. simpl Qden.
    change (Z.pos (10 * 1 * 2)) with 20.
    symmetry. apply (Z.div_unique _ 20 _ 10); lia. }
  rewrite Hf.
  destruct (num_lt (m # 10) 0) eqn:Hneg.
  - apply num_lt_iff in Hneg. unfold Qlt in Hneg. simpl in Hneg.
    f_equal. lia.
  - apply num_lt_false_iff in Hneg. unfold Qle in Hneg. simpl in Hneg.
    f_equal. lia.
Qed.

Lemma round1_idempotent (x : Q) : round1 (round1 x) = round1 x.
Proof.
  destruct (round1_nearest x) as [H | (m & H & _)]; rewrite H.
  - exact H.
  - apply round1_tenth.
Qed.

(** ** Telemetry generator *)

Lemma advance_0 (w : World) : advance 0 w = w.
Proof. destruct w; reflexivity. Qed.

Lemma advance_advance (j k : nat) (w : World) :
  advance j (advance k w) = advance (j + k) w.
Proof. unfold advance; cbn. f_equal. lia. Qed.

Lemma unit_tape_advance (k : nat) (w : World) :
  unit_tape w -> unit_tape (advance k w).
Proof. intros H n. apply H. Qed.


Section Tick.

Variable th : Thresholds.

Lemma stepDevice_present data d e w :
  data !! dev_id d = Some e ->
  stepDevice th data d w =
    Ok (<[ dev_id d := stepEntry th w e ]> data,
        advance (if status e then 2 else 0) w).
Proof.
  intros He. unfold stepDevice, stepEntry. rewrite He.
  destruct (status e); cbn.
  - reflexivity.
  - now rewrite advance_0.
Qed.

Lemma stepDevice_missing data d w :
  data !! dev_id d = None -> stepDevice th data d w = Throw TypeError.
Proof. intros He. unfold stepDevice. now rewrite He. Qed.

Lemma tick_cons d devices data w :
  tick (d :: devices) th data w =
    match stepDevice th data d w with
    | Ok (data1, w1) => tick devices th data1 w1
    | Throw e => Throw e
    end.
Proof. reflexivity. Qed.

Lemma tick_spec devices : forall data w,
  NoDup (dev_id <$> devices) ->
  (forall d, d ∈ devices -> is_Some (data !! dev_id d)) ->
  exists data' k,
    tick devices th data w = Ok (data', advance k w) /\
    (forall i, i ∉ (dev_id <$> devices) -> data' !! i = data !! i) /\
    (forall d e, d ∈ devices -> data !! dev_id d = Some e ->
       exists j, data' !! dev_id d = Some (stepEntry th (advance j w) e)).
Proof.
  induction devices as [| d0 rest IH]; intros data w Hnd Hall.
  - exists data, 0%nat. rewrite advance_0. split; [reflexivity |].
    split; [reflexivity |]. intros d e Hd. inversion Hd.
  - rewrite fmap_cons in Hnd. apply NoDup_cons in Hnd as [Hnew Hnd].
    destruct (Hall d0) as [e0 He0]; [left |].
    set (k0 := if status e0 then 2%nat else 0%nat).
    set (data1 := <[ dev_id d0 := stepEntry th w e0 ]> data).
    destruct (IH data1 (advance k0 w) Hnd) as (data' & k & Hrun & Hframe & Hstep).
    { intros d Hd. unfold data1.
      destruct (decide (dev_id d0 = dev_id d)) as [Heq | Hne].
      - rewrite Heq, lookup_insert_eq. eauto.
      - rewrite lookup_insert_ne by exact Hne. apply Hall. now right. }
    exists data', (k + k0)%nat.
    split; [| split].
    + rewrite tick_cons, (stepDevice_present _ _ _ _ He0).
      fold k0 data1. rewrite Hrun. now rewrite advance_advance.
    + intros i Hi. rewrite fmap_cons in Hi. apply not_elem_of_cons in Hi as [Hi0 Hi].
      rewrite (Hframe i Hi). unfold data1. now rewrite lookup_insert_ne.
    + intros d e Hd He.
      destruct (decide (dev_id d0 = dev_id d)) as [Heq | Hne].
      * exists 0%nat. rewrite advance_0, <- Heq.
        rewrite (Hframe _ Hnew). unfold data1. rewrite lookup_insert_eq.
        rewrite <- Heq in He. congruence.
      * apply elem_of_cons in Hd as [-> | Hd]; [congruence |].
        destruct (Hstep d e Hd) as [j Hj].
        { unfold data1. now rewrite lookup_insert_ne. }
        exists (j + k0)%nat. now rewrite <- advance_advance.
Qed.

End Tick.

(** ** The table of readings holds every device *)

Lemma initialDeviceData_from (devices : list Device) :
  forall (initialData : gmap string DeviceEntry) (w : World),
  exists data,
    forEach
      (fun (initialData : gmap string DeviceEntry) (device : Device) =>
         let* r1 := Math_random in
         let* r2 := Math_random in
         ret (<[ dev_id device :=
                   {| temp := (225 # 10) + (r1 * (5 # 1) - (25 # 10));
                      humidity := (50 # 1) + (r2 * (10 # 1) - (5 # 1));
                      status := dev_status device |} ]> initialData))
      devices initialData w
    = Ok (data, advance (2 * length devices) w) /\
    (forall i, is_Some (initialData !! i) -> is_Some (data !! i)) /\
    complete devices data.
Proof.
  induction devices as [| d devices IH]; intros initialData w.
  - exists initialData. cbn. rewrite advance_0.
    split; [reflexivity |]. split; [auto |]. intros d Hd. inversion Hd.
  - destruct (IH (<[ dev_id d :=
                       {| temp := (225 # 10)
                                  + (tape w (cursor w) * (5 # 1) - (25 # 10));
                          humidity := (50 # 1)
                                      + (tape w (S (cursor w)) * (10 # 1)
                                         - (5 # 1));
                          status := dev_status d |} ]> initialData)
                 (advance 2 w)) as (data & Hrun & Hkeep & Hall).
    exists data. split; [| split].
    + cbn [forEach]. unfold bind at 1. cbn. unfold advance in Hrun. cbn in Hrun.
      rewrite Hrun. do 2 f_equal. unfold advance. cbn. f_equal. lia.
    + intros i Hi. apply Hkeep.
      destruct (decide (dev_id d = i)) as [-> | Hne].
      * rewrite lookup_insert_eq. eauto.
      * now rewrite lookup_insert_ne.
    + intros d' Hd'. apply elem_of_cons in Hd' as [-> | Hd'].
      * apply Hkeep. rewrite lookup_insert_eq. eauto.
      * now apply Hall.
Qed.

(** The initialiser returns a table that holds every device. *)
Lemma initialDeviceData_complete (devices : list Device) (w : World) :
  exists data w',
    initialDeviceData devices w = Ok (data, w') /\ complete devices data.
Proof.
  destruct (initialDeviceData_from devices ∅ w) as (data & Hrun & _ & Hall).
  exists data, (advance (2 * length devices) w). split; assumption.
Qed.

(** The toggle of a known device keeps the table complete. *)
Lemma toggleStatus_complete devices deviceId data data' :
  complete devices data ->
  toggleStatus deviceId data = Ok data' ->
  complete devices data'.
Proof.
  intros Hall Hrun d Hd. unfold toggleStatus in Hrun.
  destruct (data !! deviceId) as [e |] eqn:He; [| discriminate].
  injection Hrun as <-.
  destruct (decide (deviceId = dev_id d)) as [-> | Hne].
  - rewrite lookup_insert_eq. eauto.
  - rewrite lookup_insert_ne by exact Hne. now apply Hall.
Qed.

(** A tick on a table that lacks the first device throws. *)
Lemma tick_missing_throws th d devices data w :
  data !! dev_id d = None ->
  tick (d :: devices) th data w = Throw TypeError.
Proof.
  intros H. rewrite tick_cons, (stepDevice_missing th _ _ _ H). reflexivity.
Qed.





Section TickClaims.

Variable devices : list Device.
Variable th : Thresholds.

Hypothesis unique_ids : NoDup (dev_id <$> devices).

(** One tick on a table that holds every device: the tick returns, every
    device is still in the table, and the entry of each device is the
    stepped one. *)
Lemma tick_entry data w d e :
  complete devices data ->
  d ∈ devices ->
  data !! dev_id d = Some e ->
  exists data1 k j,
    tick devices th data w = Ok (data1, advance k w) /\
    complete devices data1 /\
    data1 !! dev_id d = Some (stepEntry th (advance j w) e).
Proof.
  intros Hall Hd He.
  destruct (tick_spec th devices data w unique_ids Hall)
    as (data1 & k & Hrun & _ & Hstep).
  destruct (Hstep d e Hd He) as [j Hj].
  exists data1, k, j. split; [exact Hrun |]. split; [| exact Hj].
  intros d' Hd'. destruct (Hall d' Hd') as [e' He'].
  destruct (Hstep d' e' Hd' He') as [j' Hj']. eauto.
Qed.



End TickClaims.

Lemma INITIAL_DEVICES_unique : NoDup (dev_id <$> INITIAL_DEVICES).
Proof. apply (bool_decide_unpack _). vm_compute. reflexivity. Qed.

Lemma sampleData_complete (d : Device) :
  d ∈ INITIAL_DEVICES -> is_Some (sampleData !! dev_id d).
Proof.
  unfold INITIAL_DEVICES. rewrite !elem_of_cons, elem_of_nil.
  intros [-> | [-> | [-> | []]]]; eexists; reflexivity.
Qed.

Lemma constWorld_unit (r : Q) (now : Z) :
  (0 <= r)%Q -> (r < 1)%Q -> unit_tape (constWorld r now).
Proof. intros H0 H1 n. split; assumption. Qed.

Lemma DEFAULT_THRESHOLDS_valid : validThresholds DEFAULT_THRESHOLDS.
Proof. split; reflexivity. Qed.





(** ** Historical window aggregator *)

Section Historical.

Variables count step now : Z.

Lemma pushPoints_S todo i data w :
  pushPoints (S todo) i count step now data w =
    pushPoints todo (i + 1) count step now
      (data ++ [ {| timestamp := now - (count - i) * step;
                    time := localeTime w (now - (count - i) * step);
                    h_temp := round1 ((15 # 1) + tape w (cursor w) * (15 # 1));
                    h_humidity :=
                      round1 ((30 # 1) + tape w (S (cursor w)) * (45 # 1)) |} ])
      (advance 2 w).
Proof. reflexivity. Qed.

(** The loop returns, appends [todo] points, and the [j]-th of them
    carries the timestamp of index [i + j]. *)
Lemma pushPoints_spec todo : forall i data w,
  exists pts,
    pushPoints todo i count step now data w
      = Ok (data ++ pts, advance (2 * todo) w) /\
    length pts = todo /\
    forall j : nat, (j < todo)%nat ->
      timestamp <$> pts !! j = Some (now - (count - (i + Z.of_nat j)) * step).
Proof.
  induction todo as [| todo IH]; intros i data w.
  - exists []. rewrite app_nil_r, advance_0. repeat split. lia.
  - rewrite pushPoints_S.
    destruct (IH (i + 1) (data ++ [ {| timestamp := now - (count - i) * step;
                    time := localeTime w (now - (count - i) * step);
                    h_temp := round1 ((15 # 1) + tape w (cursor w) * (15 # 1));
                    h_humidity :=
                      round1 ((30 # 1) + tape w (S (cursor w)) * (45 # 1)) |} ])
                (advance 2 w)) as (pts & Hrun & Hlen & Hts).
    eexists (_ :: pts). split; [| split].
    + rewrite Hrun, <- app_assoc, advance_advance. cbn [app].
      do 2 f_equal. f_equal; lia.
    + cbn. now rewrite Hlen.
    + intros [| j] Hj; cbn.
      * f_equal; lia.
      * rewrite Hts by lia. f_equal; lia.
Qed.

End Historical.

Lemma rangeCount_pos (range : string) : 0 < rangeCount range.
Proof. unfold rangeCount. repeat case_match; lia. Qed.

Lemma rangeStep_pos (range : string) : 0 < rangeStep range.
Proof. unfold rangeStep. repeat case_match; lia. Qed.

Lemma range_default (range : string) :
  range <> "7d" -> range <> "3m" ->
  rangeCount range = 24 /\ rangeStep range = 3600000.
Proof.
  intros H7 H3. apply String.eqb_neq in H7, H3.
  unfold rangeCount, rangeStep. now rewrite H7, H3.
Qed.

(** The series [createHistoricalData] returns, by index. *)
Lemma createHistoricalData_run (range : string) (w : World) :
  exists pts,
    createHistoricalData range w
      = Ok (pts, advance (2 * Z.to_nat (rangeCount range)) w) /\
    length pts = Z.to_nat (rangeCount range) /\
    forall (i : nat) p, pts !! i = Some p ->
      timestamp p = clock w - (rangeCount range - Z.of_nat i) * rangeStep range.
Proof.
  destruct (pushPoints_spec (rangeCount range) (rangeStep range) (clock w)
              (Z.to_nat (rangeCount range)) 0 [] w) as (pts & Hrun & Hlen & Hts).
  exists pts. split; [exact Hrun |]. split; [exact Hlen |].
  intros i p Hp. pose proof (lookup_lt_Some _ _ _ Hp) as Hi.
  rewrite Hlen in Hi. specialize (Hts i Hi). rewrite Hp in Hts.
  cbn in Hts. injection Hts as ->. lia.
Qed.

(** C4.  [createHistoricalData] returns, for every range, a series of
    [rangeCount range] points; the table gives 24 points one hour apart
    for ["24h"], 168 points one hour apart for ["7d"] and 90 points one
    day apart for ["3m"]; the [i]-th timestamp is
    [now - (count - i) * step]; consecutive timestamps are one step apart,
    timestamps increase strictly, and the last one is one step before
    [now]; any other range gives what ["24h"] gives. *)
Theorem createHistoricalData_series (range : string) (w : World) :
  exists pts w',
    createHistoricalData range w = Ok (pts, w') /\
    length pts = Z.to_nat (rangeCount range) /\
    (rangeCount "24h" = 24 /\ rangeStep "24h" = 3600000 /\
     rangeCount "7d" = 168 /\ rangeStep "7d" = 3600000 /\
     rangeCount "3m" = 90 /\ rangeStep "3m" = 86400000) /\
    (forall i : nat, (i < length pts)%nat ->
       timestamp <$> pts !! i
         = Some (clock w - (rangeCount range - Z.of_nat i) * rangeStep range)) /\
    (forall (i : nat) p q, pts !! i = Some p -> pts !! S i = Some q ->
       timestamp q - timestamp p = rangeStep range) /\
    (forall (i j : nat) p q, (i < j)%nat ->
       pts !! i = Some p -> pts !! j = Some q -> timestamp p < timestamp q) /\
    (forall p, last pts = Some p ->
       timestamp p = clock w - rangeStep range /\ timestamp p < clock w) /\
    (range <> "7d" -> range <> "3m" ->
       createHistoricalData range w = createHistoricalData "24h" w).
Proof.
  pose proof (rangeCount_pos range) as Hc.
  pose proof (rangeStep_pos range) as Hs.
  destruct (createHistoricalData_run range w) as (pts & Hrun & Hlen & Hat).
  exists pts, (advance (2 * Z.to_nat (rangeCount range)) w).
  split; [exact Hrun |]. split; [exact Hlen |].
  split; [repeat split |].
  split; [| split; [| split; [| split]]].
  - intros i Hi. destruct (lookup_lt_is_Some_2 pts i Hi) as [p Hp].
    rewrite Hp. cbn. f_equal. exact (Hat _ _ Hp).
  - intros i p q Hp Hq. rewrite (Hat _ _ Hp), (Hat _ _ Hq). lia.
  - intros i j p q Hij Hp Hq. rewrite (Hat _ _ Hp), (Hat _ _ Hq). nia.
  - intros p Hp. rewrite last_lookup in Hp. rewrite (Hat _ _ Hp), Hlen.
    assert (Z.of_nat (Nat.pred (Z.to_nat (rangeCount range)))
            = rangeCount range - 1) as -> by lia.
    split; lia.
  - intros H7 H3. unfold createHistoricalData.
    destruct (range_default range H7 H3) as [-> ->]. reflexivity.
Qed.

Lemma createHistoricalData_series_witness :
  exists pts w',
    createHistoricalData "1y" (constWorld (1 # 2) 1700000000000)
      = Ok (pts, w') /\
    length pts = 24%nat /\
    timestamp <$> pts !! 23%nat = Some (1700000000000 - 3600000).
Proof.
  destruct (createHistoricalData_series "1y" (constWorld (1 # 2) 1700000000000))
    as (pts & w' & Hrun & Hlen & _ & Hts & _ & _ & _ & Hdef).
  exists pts, w'. split; [exact Hrun |]. split; [exact Hlen |].
  rewrite (Hts 23%nat).
  - reflexivity.
  - rewrite Hlen. vm_compute. lia.
Defined.

(** ** Live history buffer *)

Lemma slice_last9 {A : Type} (l : list A) :
  slice (-9) l = drop (length l - 9) l.
Proof. unfold slice. cbn. f_equal. lia. Qed.

Lemma pushLive_eq (h : list LivePoint) (p : LivePoint) :
  pushLive h p = drop (length h - 9) h ++ [p].
Proof. unfold pushLive. now rewrite slice_last9. Qed.

Lemma pushLive_length (h : list LivePoint) (p : LivePoint) :
  (length (pushLive h p) <= 10)%nat.
Proof. rewrite pushLive_eq, length_app, length_drop. cbn. lia. Qed.

(** Below capacity an append only adds the point at the tail. *)
Lemma pushLive_room (h : list LivePoint) (p : LivePoint) :
  (length h < 10)%nat -> pushLive h p = h ++ [p].
Proof.
  intros H. rewrite pushLive_eq.
  replace (length h - 9)%nat with 0%nat by lia. reflexivity.
Qed.

(** At capacity an append also drops the entry at the head. *)
Lemma pushLive_full (h : list LivePoint) (p : LivePoint) :
  length h = 10%nat -> pushLive h p = drop 1 h ++ [p].
Proof. intros H. rewrite pushLive_eq, H. reflexivity. Qed.

Lemma pushAll_from (ps : list LivePoint) : forall h : list LivePoint,
  (length h <= 10)%nat ->
  pushAll ps h = drop (length (h ++ ps) - 10) (h ++ ps).
Proof.
  unfold pushAll.
  induction ps as [| p ps IH]; intros h Hh.
  - rewrite app_nil_r. cbn.
    replace (length h - 10)%nat with 0%nat by lia. reflexivity.
  - cbn [fold_left]. rewrite (IH _ (pushLive_length h p)).
    destruct (decide (length h = 10%nat)) as [Hfull | Hroom].
    + rewrite (pushLive_full _ _ Hfull), <- !app_assoc. cbn [app].
      destruct h as [| a h]; [discriminate |].
      cbn [drop]. rewrite drop_0.
      change ((a :: h) ++ p :: ps) with ([a] ++ (h ++ p :: ps)).
      replace (length ([a] ++ h ++ p :: ps) - 10)%nat
        with (length [a] + (length (h ++ p :: ps) - 10))%nat.
      * now rewrite drop_app_add.
      * cbn in Hfull. rewrite !length_app. cbn. lia.
    + rewrite pushLive_room by lia. now rewrite <- app_assoc.
Qed.

Lemma liveHistoryUpdate_eq deviceData thresholds activeDeviceId prev w :
  liveHistoryUpdate deviceData thresholds activeDeviceId prev w =
    Ok (pushLive prev
          {| l_time := localeTime w (clock w);
             l_temp := cd_temp (getDeviceCurrentData deviceData thresholds
                                  activeDeviceId);
             l_humidity := cd_humidity (getDeviceCurrentData deviceData
                                          thresholds activeDeviceId) |},
        w).
Proof. reflexivity. Qed.

(** C9.  The updater of the live history appends one point built from the
    current reading.  After any sequence of appends to the empty buffer
    the buffer holds at most 10 entries, namely the last 10 appended, in
    append order; one more append puts the point at the tail and, when the
    buffer already holds 10, drops the entry at the head; so after 11
    appends the first appended entry is gone and the other 10 remain in
    order. *)
Theorem liveHistory_bounded (ps : list LivePoint) :
  (forall deviceData thresholds activeDeviceId prev w,
     exists p,
       liveHistoryUpdate deviceData thresholds activeDeviceId prev w
         = Ok (pushLive prev p, w)) /\
  (length (pushAll ps []) <= 10)%nat /\
  pushAll ps [] = drop (length ps - 10) ps /\
  (forall p, pushAll (ps ++ [p]) []
             = (if (length (pushAll ps []) <? 10)%nat then pushAll ps []
                else drop 1 (pushAll ps [])) ++ [p]) /\
  (forall p0 rest, ps = p0 :: rest -> length rest = 10%nat ->
     pushAll ps [] = rest).
Proof.
  assert (Hall : forall qs, pushAll qs [] = drop (length qs - 10) qs).
  { intros qs. rewrite pushAll_from by (cbn; lia). reflexivity. }
  split; [| split; [| split; [| split]]].
  - intros deviceData thresholds activeDeviceId prev w.
    eexists. apply liveHistoryUpdate_eq.
  - rewrite Hall, length_drop. lia.
  - apply Hall.
  - intros p. unfold pushAll at 1. rewrite fold_left_app. cbn [fold_left].
    fold (pushAll ps []).
    destruct (Nat.ltb_spec (length (pushAll ps [])) 10) as [Hlt | Hge].
    + now apply pushLive_room.
    + apply pushLive_full.
      pose proof (Hall ps) as H. rewrite H, length_drop in Hge |- *. lia.
  - intros p0 rest -> Hlen. rewrite Hall. cbn [length].
    rewrite Hlen. reflexivity.
Qed.

Lemma liveHistory_bounded_witness :
  pushAll (pt 0 :: map pt [1; 2; 3; 4; 5; 6; 7; 8; 9; 10]) []
    = map pt [1; 2; 3; 4; 5; 6; 7; 8; 9; 10].
Proof.
  destruct (liveHistory_bounded
              (pt 0 :: map pt [1; 2; 3; 4; 5; 6; 7; 8; 9; 10]))
    as (_ & _ & _ & _ & H).
  apply (H (pt 0)); reflexivity.
Defined.

(** ** Series exporter *)

Lemma append_assoc (a b c : string) : (a +:+ b) +:+ c = a +:+ (b +:+ c).
Proof.
  induction a as [| x a IH]; [reflexivity |].
  change (String x ((a +:+ b) +:+ c) = String x (a +:+ (b +:+ c))).
  now f_equal.
Qed.

Lemma append_empty_r (a : string) : a +:+ EmptyString = a.
Proof.
  induction a as [| x a IH]; [reflexivity |].
  change (String x (a +:+ EmptyString) = String x a). now f_equal.
Qed.

Lemma csvRow_valid (d : ExportPoint) :
  validTime (e_timestamp d) = true -> csvRow d = Ok (rowCells d).
Proof. intros H. unfold csvRow, toISOString. now rewrite H. Qed.

Lemma csvRow_invalid (d : ExportPoint) :
  validTime (e_timestamp d) = false -> csvRow d = Throw RangeError.
Proof. intros H. unfold csvRow, toISOString. now rewrite H. Qed.

Lemma mapR_csvRow_valid (data : list ExportPoint) :
  Forall (fun d => validTime (e_timestamp d) = true) data ->
  mapR csvRow data = Ok (map rowCells data).
Proof.
  induction 1 as [| d data Hd _ IH]; cbn [mapR map].
  - reflexivity.
  - now rewrite (csvRow_valid d Hd), IH.
Qed.

Lemma join_row (d : ExportPoint) :
  Array_join "," (rowCells d) +:+ newline = csvLine d.
Proof. unfold csvLine, rowCells. cbn [Array_join ToString]. now rewrite !append_assoc. Qed.

Lemma fold_rows (data : list ExportPoint) : forall csv : string,
  fold_left (fun csv row => csv +:+ (Array_join "," row +:+ newline))
    (map rowCells data) csv
  = csv +:+ csvLines data.
Proof.
  induction data as [| d data IH]; intros csv; cbn [map fold_left csvLines].
  - now rewrite append_empty_r.
  - now rewrite IH, join_row, append_assoc.
Qed.



(** A point whose date is invalid makes the export throw. *)
Lemma convertToCsv_invalid_date (d : ExportPoint) (data : list ExportPoint) :
  validTime (e_timestamp d) = false ->
  convertToCsv (d :: data) = Throw RangeError.
Proof.
  intros H. unfold convertToCsv. cbn [length Nat.eqb mapR].
  now rewrite (csvRow_invalid d H).
Qed.

(** X14.  The export of a generated series does not throw when the
    window lies within the dates a [Date] can hold. *)
Lemma export_of_series (range : string) (w : World) :
  - maxTime <= clock w - rangeCount range * rangeStep range ->
  clock w <= maxTime ->
  exists pts w',
    createHistoricalData range w = Ok (pts, w') /\
    convertToCsv (dataToExport pts)
      = Ok (("Timestamp,Temperature,Humidity" +:+ newline)
            +:+ csvLines (dataToExport pts)).
Proof.
  intros Hlo Hhi.
  pose proof (rangeCount_pos range) as Hc.
  pose proof (rangeStep_pos range) as Hs.
  destruct (createHistoricalData_run range w) as (pts & Hrun & Hlen & Hat).
  exists pts, (advance (2 * Z.to_nat (rangeCount range)) w).
  split; [exact Hrun |].
  assert (Hvalid : Forall (fun d => validTime (e_timestamp d) = true)
                     (dataToExport pts)).
  { unfold dataToExport. apply Forall_fmap, Forall_lookup. intros i p Hp.
    pose proof (lookup_lt_Some _ _ _ Hp) as Hi. rewrite Hlen in Hi.
    cbn. rewrite (Hat _ _ Hp). unfold validTime.
    apply andb_true_iff. split; [apply Z.leb_le | apply Z.leb_le]; nia. }
  unfold convertToCsv. rewrite (mapR_csvRow_valid _ Hvalid), fold_rows.
  destruct (dataToExport pts) as [| d ds] eqn:Hd; [| reflexivity].
  apply (f_equal length) in Hd. unfold dataToExport in Hd.
  rewrite length_map, Hlen in Hd. cbn in Hd. lia.
Qed.

(** ** Threshold store *)

Section Save.

Variable s : Settings.

Lemma handleSave_temperature :
  (rmax (th_temp (localThresholds s)) <= rmin (th_temp (localThresholds s)))%Q ->
  handleSave s = setValidationError (Some temperatureMessage)
                   (setValidationError None s).
Proof.
  intros H. apply num_le_iff in H. unfold handleSave. cbn.
  now rewrite H.
Qed.

Lemma handleSave_humidity :
  (rmin (th_temp (localThresholds s)) < rmax (th_temp (localThresholds s)))%Q ->
  (rmax (th_humidity (localThresholds s)) <= rmin (th_humidity (localThresholds s)))%Q ->
  handleSave s = setValidationError (Some humidityMessage)
                   (setValidationError None s).
Proof.
  intros Ht Hh. apply num_le_false_iff in Ht. apply num_le_iff in Hh.
  unfold handleSave. cbn. now rewrite Ht, Hh.
Qed.

Lemma handleSave_commit :
  (rmin (th_temp (localThresholds s)) < rmax (th_temp (localThresholds s)))%Q ->
  (rmin (th_humidity (localThresholds s)) < rmax (th_humidity (localThresholds s)))%Q ->
  handleSave s = setSuccess true
                   (setThresholds (localThresholds s) (setValidationError None s)).
Proof.
  intros Ht Hh. apply num_le_false_iff in Ht, Hh.
  unfold handleSave. cbn. now rewrite Ht, Hh.
Qed.

(** The three ways a save can go. *)
Lemma handleSave_cases :
  ((rmax (th_temp (localThresholds s)) <= rmin (th_temp (localThresholds s)))%Q /\
   handleSave s = setValidationError (Some temperatureMessage)
                    (setValidationError None s)) \/
  ((rmin (th_temp (localThresholds s)) < rmax (th_temp (localThresholds s)))%Q /\
   (rmax (th_humidity (localThresholds s)) <= rmin (th_humidity (localThresholds s)))%Q /\
   handleSave s = setValidationError (Some humidityMessage)
                    (setValidationError None s)) \/
  ((rmin (th_temp (localThresholds s)) < rmax (th_temp (localThresholds s)))%Q /\
   (rmin (th_humidity (localThresholds s)) < rmax (th_humidity (localThresholds s)))%Q /\
   handleSave s = setSuccess true
                    (setThresholds (localThresholds s) (setValidationError None s))).
Proof.
  destruct (Qlt_le_dec (rmin (th_temp (localThresholds s))) (rmax (th_temp (localThresholds s))))
    as [Ht | Ht].
  - destruct (Qlt_le_dec (rmin (th_humidity (localThresholds s))) (rmax (th_humidity (localThresholds s))))
      as [Hh | Hh].
    + right; right. auto using handleSave_commit.
    + right; left. auto using handleSave_humidity.
  - left. auto using handleSave_temperature.
Qed.

(** C5.  [handleSave] reports a validation error exactly when the
    candidate has [temperature.max <= temperature.min] or
    [humidity.max <= humidity.min]; the message names temperature in the
    first case and humidity when only the humidity range is wrong.  When
    an error is reported the active threshold set and the persisted one
    are unchanged.  Otherwise the candidate becomes the active set, its
    JSON text is stored under [iotThresholds], and the success flag is
    set. *)
Theorem handleSave_validates :
  (is_Some (validationError (handleSave s)) <->
     (rmax (th_temp (localThresholds s)) <= rmin (th_temp (localThresholds s)))%Q \/
     (rmax (th_humidity (localThresholds s)) <= rmin (th_humidity (localThresholds s)))%Q) /\
  ((rmax (th_temp (localThresholds s)) <= rmin (th_temp (localThresholds s)))%Q ->
     validationError (handleSave s) = Some temperatureMessage) /\
  ((rmin (th_temp (localThresholds s)) < rmax (th_temp (localThresholds s)))%Q ->
   (rmax (th_humidity (localThresholds s)) <= rmin (th_humidity (localThresholds s)))%Q ->
     validationError (handleSave s) = Some humidityMessage) /\
  (is_Some (validationError (handleSave s)) ->
     thresholds (handleSave s) = thresholds s /\
     localStorage (handleSave s) = localStorage s) /\
  (validationError (handleSave s) = None ->
     thresholds (handleSave s) = (localThresholds s) /\
     localStorage (handleSave s)
       = <[ "iotThresholds" := JSON_stringify (localThresholds s) ]> (localStorage s) /\
     success (handleSave s) = true).
Proof.
  destruct handleSave_cases as [[Ht ->] | [(Ht & Hh & ->) | (Ht & Hh & ->)]];
    cbn [validationError thresholds localStorage success
         setValidationError setSuccess setThresholds];
    (split; [| split; [| split; [| split]]]).
  - split; [intros _; now left | intros _; eauto].
  - reflexivity.
  - intros Hx. lra.
  - intros _. split; reflexivity.
  - discriminate.
  - split; [intros _; now right | intros _; eauto].
  - intros Hx. lra.
  - reflexivity.
  - intros _. split; reflexivity.
  - discriminate.
  - split; [intros [x Hx]; discriminate | intros [Hx | Hx]; lra].
  - intros Hx. lra.
  - intros _ Hx. lra.
  - intros [x Hx]. discriminate.
  - intros _. repeat split.
Qed.

(** C10.  The temperature range is checked first: whenever
    [temperature.max <= temperature.min], whatever the humidity range,
    and so when both ranges are wrong, the one error reported is the
    temperature message; the humidity message is reported only with a
    valid temperature range. *)
Theorem handleSave_temperature_first :
  ((rmax (th_temp (localThresholds s)) <= rmin (th_temp (localThresholds s)))%Q ->
     validationError (handleSave s) = Some temperatureMessage) /\
  ((rmax (th_temp (localThresholds s)) <= rmin (th_temp (localThresholds s)))%Q /\
   (rmax (th_humidity (localThresholds s)) <= rmin (th_humidity (localThresholds s)))%Q ->
     validationError (handleSave s) = Some temperatureMessage) /\
  (validationError (handleSave s) = Some humidityMessage ->
     (rmin (th_temp (localThresholds s)) < rmax (th_temp (localThresholds s)))%Q) /\
  temperatureMessage <> humidityMessage.
Proof.
  assert (Hne : temperatureMessage <> humidityMessage) by discriminate.
  destruct handleSave_cases as [[Ht ->] | [(Ht & Hh & ->) | (Ht & Hh & ->)]];
    cbn [validationError setValidationError setSuccess setThresholds];
    (split; [| split; [| split; [| exact Hne]]]).
  - reflexivity.
  - reflexivity.
  - intros Hx. exfalso. apply Hne. congruence.
  - intros Hx. lra.
  - intros [Hx _]. lra.
  - intros _. exact Ht.
  - intros Hx. lra.
  - intros [Hx _]. lra.
  - intros _. exact Ht.
Qed.

End Save.

Lemma handleSave_validates_witness :
  validationError (handleSave invalidForm) = Some temperatureMessage /\
  thresholds (handleSave invalidForm) = DEFAULT_THRESHOLDS /\
  localStorage (handleSave invalidForm) = ∅.
Proof.
  destruct (handleSave_validates invalidForm) as (Hiff & Ht & _ & Hkeep & _).
  assert (Hbad : (rmax (th_temp (localThresholds invalidForm))
                  <= rmin (th_temp (localThresholds invalidForm)))%Q)
    by discriminate.
  split; [exact (Ht Hbad) |].
  apply Hkeep, Hiff. left. exact Hbad.
Defined.

Lemma handleSave_temperature_first_witness :
  validationError (handleSave invalidForm) = Some temperatureMessage.
Proof.
  destruct (handleSave_temperature_first invalidForm) as (_ & Hboth & _).
  apply Hboth. split; discriminate.
Defined.

(** ** Power toggle *)

Lemma toggleStatus_present deviceId data e :
  data !! deviceId = Some e ->
  toggleStatus deviceId data =
    Ok (<[ deviceId := {| temp := temp e; humidity := humidity e;
                          status := negb (status e) |} ]> data).
Proof. intros H. unfold toggleStatus. now rewrite H. Qed.

Lemma toggleStatus_missing deviceId data :
  data !! deviceId = None -> toggleStatus deviceId data = Throw TypeError.
Proof. intros H. unfold toggleStatus. now rewrite H. Qed.

(** For a device in the table the toggle flips its power flag, keeps its
    readings, and leaves every other entry as it was. *)
Lemma toggleStatus_flips deviceId data e :
  data !! deviceId = Some e ->
  exists data',
    toggleStatus deviceId data = Ok data' /\
    data' !! deviceId = Some {| temp := temp e; humidity := humidity e;
                                status := negb (status e) |} /\
    forall other, other <> deviceId -> data' !! other = data !! other.
Proof.
  intros H. eexists. split; [apply (toggleStatus_present _ _ _ H) |].
  split; [apply lookup_insert_eq |].
  intros other Hne. now apply lookup_insert_ne.
Qed.

(** C8.  On an id that is not in the table the toggle is not a no-op: the
    updater reads [status] of [undefined] and throws a [TypeError]. *)
Theorem toggleStatus_unknown_throws :
  sampleData !! "dev-404" = None /\
  toggleStatus "dev-404" sampleData = Throw TypeError.
Proof. split; reflexivity. Qed.

(* ===================================================================== *)
(** * Further properties                                                 *)
(* ===================================================================== *)

(** ** Runs of ticks and toggles *)

Section Runs.

Variable devices : list Device.
Variable th : Thresholds.

(** A step on a device that has an entry keeps the keys of the table. *)
Lemma stepDevice_keys (data : gmap string DeviceEntry) d e w (i : string) :
  data !! dev_id d = Some e ->
  is_Some ((<[ dev_id d := stepEntry th w e ]> data) !! i)
  <-> is_Some (data !! i).
Proof.
  intros He. destruct (decide (dev_id d = i)) as [<- | Hne].
  - rewrite lookup_insert_eq, He. split; eauto.
  - now rewrite lookup_insert_ne.
Qed.






End Runs.

Section RunsProps.

Variable devices : list Device.
Variable th : Thresholds.

(** What a tick keeps, whatever the ids: the keys of the table, the
    entries of ids outside the device list, and every power flag. *)
Lemma tick_preserves (ds : list Device) : forall data w,
  complete ds data ->
  exists data' k,
    tick ds th data w = Ok (data', advance k w) /\
    (forall i, is_Some (data' !! i) <-> is_Some (data !! i)) /\
    (forall i, i ∉ (dev_id <$> ds) -> data' !! i = data !! i) /\
    (forall i e e', data !! i = Some e -> data' !! i = Some e' ->
       status e' = status e).
Proof.
  induction ds as [| d0 rest IH]; intros data w Hall.
  - exists data, 0%nat. rewrite advance_0.
    split; [reflexivity |]. split; [reflexivity |]. split; [reflexivity |].
    intros i e e' He He'. congruence.
  - destruct (Hall d0) as [e0 He0]; [left |].
    destruct (IH (<[ dev_id d0 := stepEntry th w e0 ]> data)
                (advance (if status e0 then 2 else 0) w))
      as (data' & k & Hrun & Hkeys & Hframe & Hstatus).
    { intros d Hd. apply (stepDevice_keys th _ _ _ _ _ He0), Hall. now right. }
    exists data', (k + (if status e0 then 2 else 0))%nat.
    split; [| split; [| split]].
    + rewrite tick_cons, (stepDevice_present th _ _ _ _ He0), Hrun.
      now rewrite advance_advance.
    + intros i. rewrite Hkeys. apply (stepDevice_keys th _ _ _ _ _ He0).
    + intros i Hi. rewrite fmap_cons in Hi.
      apply not_elem_of_cons in Hi as [Hi0 Hi].
      rewrite (Hframe i Hi). now rewrite lookup_insert_ne.
    + intros i e e' He He'.
      destruct (decide (dev_id d0 = i)) as [<- | Hne].
      * rewrite (Hstatus (dev_id d0) (stepEntry th w e0) e');
          [| apply lookup_insert_eq | exact He'].
        assert (e = e0) as -> by congruence.
        unfold stepEntry. destruct (status e0) eqn:Hs; cbn; exact Hs.
      * apply (Hstatus i e e'); [| exact He'].
        now rewrite lookup_insert_ne.
Qed.

(** X1.  A tick on a table that holds every device returns; it neither
    adds nor removes a key, leaves the entries of ids outside the device
    list as they were, and changes no power flag. *)
Theorem tick_keeps_table (data : gmap string DeviceEntry) (w : World) :
  complete devices data ->
  exists data' w',
    tick devices th data w = Ok (data', w') /\
    dom data' = dom data /\
    (forall i, i ∉ (dev_id <$> devices) -> data' !! i = data !! i) /\
    (forall i e e', data !! i = Some e -> data' !! i = Some e' ->
       status e' = status e).
Proof.
  intros Hall.
  destruct (tick_preserves devices data w Hall)
    as (data' & k & Hrun & Hkeys & Hframe & Hstatus).
  exists data', (advance k w). split; [exact Hrun |].
  split; [| split; assumption].
  apply set_eq. intros i. rewrite !elem_of_dom. apply Hkeys.
Qed.

(** X2.  A tick throws a [TypeError] as soon as one device of the list
    has no entry in the table. *)
Theorem tick_missing_device (d : Device) :
  forall (ds : list Device) (data : gmap string DeviceEntry) (w : World),
  d ∈ ds ->
  data !! dev_id d = None ->
  tick ds th data w = Throw TypeError.
Proof.
  induction ds as [| d0 rest IH]; intros data w Hd Hnone; [inversion Hd |].
  rewrite tick_cons.
  destruct (data !! dev_id d0) as [e0 |] eqn:He0.
  - rewrite (stepDevice_present th _ _ _ _ He0).
    apply elem_of_cons in Hd as [-> | Hd]; [congruence |].
    apply IH; [exact Hd |].
    rewrite lookup_insert_ne; [exact Hnone |]. congruence.
  - now rewrite (stepDevice_missing th _ _ _ He0).
Qed.

End RunsProps.

(** ** The initial table *)

(** The entry the initialiser builds for a device, from two draws. *)
Lemma seed_ranges (r1 r2 : Q) :
  (0 <= r1)%Q -> (r1 < 1)%Q -> (0 <= r2)%Q -> (r2 < 1)%Q ->
  (20 # 1 <= (225 # 10) + (r1 * (5 # 1) - (25 # 10)))%Q /\
  ((225 # 10) + (r1 * (5 # 1) - (25 # 10)) < 25 # 1)%Q /\
  (45 # 1 <= (50 # 1) + (r2 * (10 # 1) - (5 # 1)))%Q /\
  ((50 # 1) + (r2 * (10 # 1) - (5 # 1)) < 55 # 1)%Q.
Proof. intros. conjs; lra. Qed.

Lemma seeded_cons d0 devices i e :
  seeded devices i e -> seeded (d0 :: devices) i e.
Proof.
  intros [(d & Hd & Hid & Hs) Hr]. split; [| exact Hr].
  exists d. split; [now right | now split].
Qed.

Lemma initialDeviceData_seeded (devices : list Device) :
  forall (initialData : gmap string DeviceEntry) (w : World),
  unit_tape w ->
  exists data,
    forEach
      (fun (initialData : gmap string DeviceEntry) (device : Device) =>
         let* r1 := Math_random in
         let* r2 := Math_random in
         ret (<[ dev_id device :=
                   {| temp := (225 # 10) + (r1 * (5 # 1) - (25 # 10));
                      humidity := (50 # 1) + (r2 * (10 # 1) - (5 # 1));
                      status := dev_status device |} ]> initialData))
      devices initialData w
    = Ok (data, advance (2 * length devices) w) /\
    (forall i, i ∉ (dev_id <$> devices) -> data !! i = initialData !! i) /\
    (forall i, i ∈ (dev_id <$> devices) ->
       exists e, data !! i = Some e /\ seeded devices i e).
Proof.
  induction devices as [| d devices IH]; intros initialData w Htape.
  - exists initialData. cbn. rewrite advance_0.
    split; [reflexivity |]. split; [reflexivity |].
    intros i Hi. inversion Hi.
  - set (e0 := {| temp := (225 # 10)
                          + (tape w (cursor w) * (5 # 1) - (25 # 10));
                  humidity := (50 # 1)
                              + (tape w (S (cursor w)) * (10 # 1) - (5 # 1));
                  status := dev_status d |}).
    destruct (IH (<[ dev_id d := e0 ]> initialData) (advance 2 w)
                (unit_tape_advance 2 w Htape)) as (data & Hrun & Hout & Hin).
    exists data. split; [| split].
    + cbn [forEach]. unfold bind at 1. cbn. unfold advance in Hrun. cbn in Hrun.
      fold e0. rewrite Hrun. do 2 f_equal. unfold advance. cbn. f_equal. lia.
    + intros i Hi. rewrite fmap_cons in Hi.
      apply not_elem_of_cons in Hi as [Hi0 Hi].
      rewrite (Hout i Hi). now rewrite lookup_insert_ne.
    + intros i Hi.
      destruct (decide (i ∈ dev_id <$> devices)) as [Hrest | Hrest].
      * destruct (Hin i Hrest) as (e & He & Hs).
        exists e. split; [exact He | now apply seeded_cons].
      * rewrite fmap_cons in Hi. apply elem_of_cons in Hi as [-> | Hi];
          [| contradiction].
        exists e0. split.
        -- rewrite (Hout _ Hrest). apply lookup_insert_eq.
        -- split; [exists d; split; [left | now split] |].
           destruct (Htape (cursor w)) as [H0 H1].
           destruct (Htape (S (cursor w))) as [H2 H3].
           apply seed_ranges; assumption.
Qed.




(** ** Many ticks *)

Section ManyTicks.

Variable devices : list Device.
Variable th : Thresholds.

Hypothesis unique_ids : NoDup (dev_id <$> devices).

Lemma ticks_S n (data : gmap string DeviceEntry) w :
  ticks (S n) devices th data w =
    match tick devices th data w with
    | Ok (data1, w1) => ticks n devices th data1 w1
    | Throw e => Throw e
    end.
Proof. reflexivity. Qed.

(** X5.  A device that is switched off keeps its reading, rounded to one
    decimal place, over any number of ticks: after one tick or more its
    entry is the rounded entry it had. *)
Theorem ticks_frozen (n : nat) : forall data w d e,
  complete devices data ->
  d ∈ devices ->
  data !! dev_id d = Some e ->
  status e = false ->
  exists data' w',
    ticks (S n) devices th data w = Ok (data', w') /\
    complete devices data' /\
    data' !! dev_id d = Some (roundEntry e).
Proof.
  induction n as [| n IH]; intros data w d e Hall Hd He Hoff;
    destruct (tick_entry devices th unique_ids data w d e Hall Hd He)
      as (data1 & k1 & j1 & Hrun1 & Hall1 & He1);
    unfold stepEntry in He1; rewrite Hoff in He1; rewrite ticks_S, Hrun1.
  - exists data1, (advance k1 w). now split.
  - destruct (IH data1 (advance k1 w) d (roundEntry e) Hall1 Hd He1 Hoff)
      as (data' & w' & Hrun & Hall' & He').
    exists data', w'. split; [exact Hrun |]. split; [exact Hall' |].
    rewrite He'. f_equal. unfold roundEntry. cbn.
    now rewrite !round1_idempotent.
Qed.



End ManyTicks.

(** ** Toggles *)

(** X7.  Toggling a device twice gives back the table as it was. *)
Theorem toggleStatus_twice (deviceId : string)
    (data data1 : gmap string DeviceEntry) :
  toggleStatus deviceId data = Ok data1 ->
  toggleStatus deviceId data1 = Ok data.
Proof.
  unfold toggleStatus at 1.
  destruct (data !! deviceId) as [e |] eqn:He; [| discriminate].
  intros [= <-]. unfold toggleStatus. rewrite lookup_insert_eq. cbn.
  rewrite insert_insert_eq, negb_involutive. f_equal.
  apply insert_id. rewrite He. now destruct e.
Qed.

(** X8.  A toggle changes what [getDeviceCurrentData] reports in one
    place only: the power flag of the toggled device is negated; its
    readings and alert flags, and everything reported for any other id,
    stay as they were. *)
Theorem toggleStatus_report (deviceId : string)
    (data data1 : gmap string DeviceEntry) (th : Thresholds) :
  toggleStatus deviceId data = Ok data1 ->
  (let r := getDeviceCurrentData data th deviceId in
   getDeviceCurrentData data1 th deviceId =
     {| cd_temp := cd_temp r; cd_humidity := cd_humidity r;
        cd_status := negb (cd_status r);
        tempAlert := tempAlert r; humidityAlert := humidityAlert r |}) /\
  (forall other, other <> deviceId ->
     getDeviceCurrentData data1 th other = getDeviceCurrentData data th other).
Proof.
  unfold toggleStatus.
  destruct (data !! deviceId) as [e |] eqn:He; [| discriminate].
  intros [= <-]. split.
  - unfold getDeviceCurrentData. now rewrite lookup_insert_eq, He.
  - intros other Hne. unfold getDeviceCurrentData.
    now rewrite lookup_insert_ne.
Qed.

(** ** Values of the historical series *)

(** Below 10^21 the rounding gives a number with one decimal place. *)
Lemma round1_small (x : Q) :
  (Qabs x < 1000000000000000000000 # 1)%Q -> oneDecimal (round1 x).
Proof.
  intros H. unfold round1.
  destruct (Qle_bool (1000000000000000000000 # 1) (Qabs x)) eqn:Hbig.
  - apply Qle_bool_iff in Hbig. exfalso. apply (Qlt_not_le _ _ H Hbig).
  - destruct (num_lt x 0); eexists; reflexivity.
Qed.

(** The rounding of a draw scaled into [lo, lo + span). *)
Lemma round1_draw (a b : Z) (lo span r : Q) :
  (lo == a # 10)%Q -> (lo + span == b # 10)%Q ->
  (0 <= lo)%Q -> (0 <= span)%Q -> (lo + span <= 100 # 1)%Q ->
  (0 <= r)%Q -> (r < 1)%Q ->
  oneDecimal (round1 (lo + r * span)) /\
  (lo <= round1 (lo + r * span))%Q /\ (round1 (lo + r * span) <= lo + span)%Q.
Proof.
  intros Ha Hb Hlo Hspan Hhi H0 H1.
  assert (Hr : (0 <= r * span)%Q) by (apply Qmult_le_0_compat; assumption).
  assert (Hs : (r * span <= span)%Q).
  { rewrite <- (Qmult_1_l span) at 2. apply Qmult_le_compat_r; lra. }
  split; [| split].
  - apply round1_small. rewrite Qabs_pos by lra. lra.
  - rewrite Ha at 1. apply round1_ge_tenth. rewrite <- Ha. lra.
  - rewrite Hb. apply round1_le_tenth. rewrite <- Hb. lra.
Qed.

Section HistoricalValues.

Variables count step now : Z.

Lemma pushPoints_values todo : forall i data w,
  unit_tape w ->
  exists pts,
    pushPoints todo i count step now data w
      = Ok (data ++ pts, advance (2 * todo) w) /\
    Forall (fun p => drawnPoint p /\ time p = localeTime w (timestamp p)) pts.
Proof.
  induction todo as [| todo IH]; intros i data w Htape.
  - exists []. rewrite app_nil_r, advance_0. split; [reflexivity | constructor].
  - rewrite pushPoints_S.
    destruct (IH (i + 1) (data ++ [ {| timestamp := now - (count - i) * step;
                    time := localeTime w (now - (count - i) * step);
                    h_temp := round1 ((15 # 1) + tape w (cursor w) * (15 # 1));
                    h_humidity :=
                      round1 ((30 # 1) + tape w (S (cursor w)) * (45 # 1)) |} ])
                (advance 2 w) (unit_tape_advance 2 w Htape))
      as (pts & Hrun & Hpts).
    eexists (_ :: pts). split.
    + rewrite Hrun, <- app_assoc, advance_advance. cbn [app].
      do 2 f_equal. f_equal; lia.
    + constructor; [| exact Hpts]. split; [| reflexivity].
      destruct (Htape (cursor w)) as [H0 H1].
      destruct (Htape (S (cursor w))) as [H2 H3].
      destruct (round1_draw 150 300 (15 # 1) (15 # 1) (tape w (cursor w)))
        as (Ht1 & Ht2 & Ht3); try reflexivity; try discriminate; try assumption.
      destruct (round1_draw 300 750 (30 # 1) (45 # 1) (tape w (S (cursor w))))
        as (Hh1 & Hh2 & Hh3); try reflexivity; try discriminate; try assumption.
      unfold drawnPoint. cbn [h_temp h_humidity].
      conjs; try assumption.
Qed.

End HistoricalValues.

(** X9.  With results of [Math.random] in [0, 1), every point of a
    generated series has a temperature in [15, 30] and a humidity in
    [30, 75], both with one decimal place, and its label is the locale's
    rendering of its own timestamp; generating the series takes two
    random draws per point and leaves the clock as it was. *)
Theorem createHistoricalData_values (range : string) (w : World) :
  unit_tape w ->
  exists pts w',
    createHistoricalData range w = Ok (pts, w') /\
    Forall (fun p => drawnPoint p /\ time p = localeTime w (timestamp p)) pts /\
    cursor w' = (2 * Z.to_nat (rangeCount range) + cursor w)%nat /\
    clock w' = clock w.
Proof.
  intros Htape.
  destruct (pushPoints_values (rangeCount range) (rangeStep range) (clock w)
              (Z.to_nat (rangeCount range)) 0 [] w Htape) as (pts & Hrun & Hpts).
  exists pts, (advance (2 * Z.to_nat (rangeCount range)) w).
  split; [exact Hrun |]. split; [exact Hpts |]. split; reflexivity.
Qed.

(** ** Errors of the export *)

Lemma mapR_csvRow_throws (data : list ExportPoint) :
  (Forall (fun d => validTime (e_timestamp d) = true) data /\
   mapR csvRow data = Ok (map rowCells data)) \/
  (Exists (fun d => validTime (e_timestamp d) = false) data /\
   mapR csvRow data = Throw RangeError).
Proof.
  induction data as [| d data IH].
  - left. split; [constructor | reflexivity].
  - cbn [mapR map]. destruct (validTime (e_timestamp d)) eqn:Hd.
    + rewrite (csvRow_valid d Hd).
      destruct IH as [[Hall ->] | [Hex ->]].
      * left. split; [now constructor | reflexivity].
      * right. split; [now apply Exists_cons_tl | reflexivity].
    + rewrite (csvRow_invalid d Hd). right.
      split; [now apply Exists_cons_hd | reflexivity].
Qed.

(** X10.  [convertToCsv] throws exactly when some point has a timestamp
    outside the dates a [Date] can hold, and then it throws a
    [RangeError]; otherwise it returns a text. *)
Theorem convertToCsv_throws_iff (data : list ExportPoint) :
  (convertToCsv data = Throw RangeError <->
     Exists (fun d => validTime (e_timestamp d) = false) data) /\
  (forall e, convertToCsv data = Throw e -> e = RangeError) /\
  (Forall (fun d => validTime (e_timestamp d) = true) data ->
     exists csv, convertToCsv data = Ok csv).
Proof.
  unfold convertToCsv. destruct data as [| d data].
  - cbn. split; [| split].
    + split; [discriminate | intros H; inversion H].
    + discriminate.
    + eauto.
  - cbn [length Nat.eqb].
    destruct (mapR_csvRow_throws (d :: data)) as [[Hall ->] | [Hex ->]].
    + split; [| split].
      * split; [discriminate |]. intros Hex. exfalso.
        apply Exists_exists in Hex as (x & Hx & Hbad).
        rewrite Forall_forall in Hall. rewrite (Hall x Hx) in Hbad.
        discriminate.
      * discriminate.
      * eauto.
    + split; [| split].
      * split; [intros _; exact Hex | reflexivity].
      * congruence.
      * intros Hall. exfalso.
        apply Exists_exists in Hex as (x & Hx & Hbad).
        rewrite Forall_forall in Hall. rewrite (Hall x Hx) in Hbad.
        discriminate.
Qed.

(** ** The active device *)

Section ActiveDevice.

Variable deviceData : gmap string DeviceEntry.
Variable th : Thresholds.

Lemma find_first (ds : list Device) (d : Device) :
  find (reportedOn deviceData th) ds = Some d ->
  exists pre post,
    ds = pre ++ d :: post /\ reportedOn deviceData th d = true /\
    Forall (fun d' => reportedOn deviceData th d' = false) pre.
Proof.
  induction ds as [| d0 ds IH]; [discriminate |]. cbn [find].
  destruct (reportedOn deviceData th d0) eqn:H0.
  - intros [= <-]. exists [], ds. split; [reflexivity |]. split; [exact H0 |].
    constructor.
  - intros Hd. destruct (IH Hd) as (pre & post & -> & Hon & Hpre).
    exists (d0 :: pre), post. split; [reflexivity |]. split; [exact Hon |].
    now constructor.
Qed.

(** X11.  The active device of the live monitor.  With no device the
    selection throws.  Otherwise it returns the id of a listed device:
    when the ids are not empty and some device is reported as switched
    on, the first such device; when none is, the first device of the
    list. *)
Theorem activeDeviceId_selects (devices : list Device) :
  (devices = [] -> activeDeviceId devices deviceData th = Throw TypeError) /\
  (devices <> [] ->
     exists d, d ∈ devices /\
               activeDeviceId devices deviceData th = Ok (dev_id d)) /\
  (Forall (fun d => dev_id d <> EmptyString) devices ->
   forall d, d ∈ devices -> reportedOn deviceData th d = true ->
     exists pre d1 post,
       devices = pre ++ d1 :: post /\ reportedOn deviceData th d1 = true /\
       Forall (fun d' => reportedOn deviceData th d' = false) pre /\
       activeDeviceId devices deviceData th = Ok (dev_id d1)) /\
  (Forall (fun d => reportedOn deviceData th d = false) devices ->
     activeDeviceId devices deviceData th = firstDeviceId devices).
Proof.
  unfold activeDeviceId. fold (reportedOn deviceData th).
  split; [intros ->; reflexivity |]. split; [| split].
  - intros Hne. destruct devices as [| d0 ds]; [contradiction |].
    destruct (find (reportedOn deviceData th) (d0 :: ds)) as [d |] eqn:Hf.
    + destruct (String.eqb (dev_id d) EmptyString).
      * exists d0. split; [left | reflexivity].
      * exists d. split; [| reflexivity].
        apply find_some in Hf as [Hin _]. now apply list_elem_of_In.
    + exists d0. split; [left | reflexivity].
  - intros Hids d Hd Hon.
    destruct (find (reportedOn deviceData th) devices) as [d1 |] eqn:Hf.
    + destruct (find_first _ _ Hf) as (pre & post & Heq & Hon1 & Hpre).
      exists pre, d1, post. split; [exact Heq |]. split; [exact Hon1 |].
      split; [exact Hpre |].
      assert (Hne : dev_id d1 <> EmptyString).
      { rewrite Forall_forall in Hids. apply Hids. rewrite Heq.
        apply elem_of_app. right. left. }
      apply String.eqb_neq in Hne. now rewrite Hne.
    + exfalso. apply list_elem_of_In in Hd.
      pose proof (find_none _ _ Hf d Hd) as Hoff. congruence.
  - intros Hoff.
    destruct (find (reportedOn deviceData th) devices) as [d |] eqn:Hf; [| reflexivity].
    exfalso. apply find_some in Hf as [Hin Hon].
    rewrite Forall_forall in Hoff. apply list_elem_of_In in Hin.
    rewrite (Hoff d Hin) in Hon. discriminate.
Qed.

End ActiveDevice.

(** ** Authentication and views *)

Lemma login_success (s : Session) :
  login LOGIN_email LOGIN_password s =
    (true, {| view := "dashboard"; isAuthenticated := true; error := None;
              storage := <[ "authToken" := "valid" ]> (storage s) |}).
Proof. reflexivity. Qed.

Lemma login_cases (e p : string) (s : Session) :
  (e = LOGIN_email /\ p = LOGIN_password /\
   login e p s =
     (true, {| view := "dashboard"; isAuthenticated := true; error := None;
               storage := <[ "authToken" := "valid" ]> (storage s) |})) \/
  (~ (e = LOGIN_email /\ p = LOGIN_password) /\
   login e p s =
     (false, {| view := view s; isAuthenticated := isAuthenticated s;
                error := Some loginMessage; storage := storage s |})).
Proof.
  unfold login.
  destruct (String.eqb_spec e LOGIN_email) as [-> | He];
    destruct (String.eqb_spec p LOGIN_password) as [-> | Hp]; cbn [andb].
  - left. auto.
  - right. split; [intros [_ H]; contradiction | reflexivity].
  - right. split; [intros [H _]; contradiction | reflexivity].
  - right. split; [intros [H _]; contradiction | reflexivity].
Qed.

(** The configured email passes the format check of the form. *)
Lemma LOGIN_email_format : regex_test emailPattern LOGIN_email = true.
Proof. vm_compute. reflexivity. Qed.

(** X12.  [handleSubmit] of the login form.  With the configured email
    and password it stores the token and shows the dashboard, with no
    message.  With anything else it leaves the view, the authentication
    flag and the storage as they were, and shows: that both fields are
    required when one is empty; that the email format is invalid when the
    email fails the pattern; and otherwise, when the previous error was
    none or the same one, that the email or password is invalid. *)
Theorem handleSubmit_outcome (f : LoginFields) (s : Session) :
  let f' := fst (handleSubmit f s) in
  let s' := snd (handleSubmit f s) in
  (email f = LOGIN_email /\ password f = LOGIN_password ->
     content s' = DashboardLayout /\ isAuthenticated s' = true /\
     storage s' !! "authToken" = Some "valid" /\ shownError f' s' = None) /\
  (~ (email f = LOGIN_email /\ password f = LOGIN_password) ->
     view s' = view s /\ isAuthenticated s' = isAuthenticated s /\
     storage s' = storage s /\
     (email f = EmptyString \/ password f = EmptyString ->
        s' = s /\ shownError f' s' = Some requiredMessage) /\
     (email f <> EmptyString -> password f <> EmptyString ->
      regex_test emailPattern (email f) = false ->
        s' = s /\ shownError f' s' = Some formatMessage) /\
     (email f <> EmptyString -> password f <> EmptyString ->
      regex_test emailPattern (email f) = true ->
      error s = None \/ error s = Some loginMessage ->
        shownError f' s' = Some loginMessage)).
Proof.
  cbv zeta. unfold handleSubmit. cbn [email password setFormError].
  split.
  - intros [-> ->].
    change (String.eqb LOGIN_email EmptyString) with false.
    change (String.eqb LOGIN_password EmptyString) with false.
    rewrite LOGIN_email_format, login_success.
    cbn [orb negb fst snd content view isAuthenticated storage].
    conjs; try reflexivity. apply lookup_insert_eq.
  - intros Hbad.
    destruct (String.eqb_spec (email f) EmptyString) as [He | He];
      [| destruct (String.eqb_spec (password f) EmptyString) as [Hp | Hp]];
      cbn [orb fst snd].
    + conjs; try reflexivity; try (intros; contradiction).
      intros _. split; reflexivity.
    + conjs; try reflexivity; try (intros; contradiction).
      intros _. split; reflexivity.
    + destruct (regex_test emailPattern (email f)) eqn:Hre; cbn [negb fst snd].
      * destruct (login_cases (email f) (password f) s)
          as [(H1 & H2 & _) | [_ ->]]; [exfalso; auto |].
        cbn [fst snd view isAuthenticated storage error].
        conjs; try reflexivity; try (intros; discriminate).
        -- intros [H | H]; contradiction.
        -- intros _ _ _ [-> | ->]; reflexivity.
      * conjs; try reflexivity; try (intros; discriminate).
        -- intros [H | H]; contradiction.
        -- intros _ _ _. split; reflexivity.
Qed.

(** The session after [handleSubmit]: as before, or the session of a
    successful login. *)
Lemma handleSubmit_session (f : LoginFields) (s : Session) :
  (email f = LOGIN_email /\ password f = LOGIN_password /\
   snd (handleSubmit f s) =
     {| view := "dashboard"; isAuthenticated := true; error := None;
        storage := <[ "authToken" := "valid" ]> (storage s) |}) \/
  snd (handleSubmit f s) = s \/
  snd (handleSubmit f s) =
    {| view := view s; isAuthenticated := isAuthenticated s;
       error := Some loginMessage; storage := storage s |}.
Proof.
  unfold handleSubmit. cbn [email password setFormError].
  destruct (String.eqb (email f) EmptyString || String.eqb (password f) EmptyString);
    [right; left; reflexivity |].
  destruct (regex_test emailPattern (email f)); cbn [negb];
    [| right; left; reflexivity].
  destruct (login_cases (email f) (password f) s)
    as [(H1 & H2 & ->) | [_ ->]]; cbn [snd]; auto.
Qed.

Lemma content_dashboard (s : Session) :
  sessionInv s -> (content s = DashboardLayout <-> view s = "dashboard").
Proof.
  intros (_ & Hview & Hauth & _). unfold content.
  destruct Hview as [-> | [-> | Hd]].
  - rewrite andb_false_r. cbn. split; discriminate.
  - rewrite andb_false_r. cbn. split; discriminate.
  - rewrite Hd, (Hauth Hd). cbn. tauto.
Qed.

Lemma initialSession_inv (stored : gmap string string) :
  sessionInv (initialSession stored).
Proof.
  unfold sessionInv, initialSession. cbn.
  split; [apply bool_decide_eq_true |]. split; [auto |].
  split; [discriminate | auto].
Qed.

Lemma react_inv (ev : event) (s : Session) :
  sessionInv s -> sessionInv (react ev s).
Proof.
  intros Hinv. pose proof Hinv as (Htok & Hview & Hauth & Herr).
  unfold react.
  destruct ev as [| | f |]; destruct (content s) eqn:Hc; try exact Hinv.
  - unfold sessionInv. cbn. conjs; auto. discriminate.
  - unfold sessionInv. cbn. conjs; auto. discriminate.
  - destruct (handleSubmit_session f s) as [(_ & _ & ->) | [-> | ->]];
      [| exact Hinv |].
    + unfold sessionInv. cbn. conjs; auto.
      split; [intros _; apply lookup_insert_eq | reflexivity].
    + unfold sessionInv. cbn. conjs; auto.
  - unfold sessionInv. cbn. conjs; auto; try discriminate.
    rewrite lookup_delete_eq. split; discriminate.
Qed.

Lemma reacts_snoc (evs : list event) (ev : event) (s : Session) :
  reacts (evs ++ [ev]) s = react ev (reacts evs s).
Proof. unfold reacts. now rewrite fold_left_app. Qed.

Lemma reacts_inv (evs : list event) (s : Session) :
  sessionInv s -> sessionInv (reacts evs s).
Proof.
  intros Hs. induction evs as [| ev evs IH] using rev_ind; [exact Hs |].
  rewrite reacts_snoc. now apply react_inv.
Qed.

(** An event leads to the dashboard view only from the dashboard view or
    by a submission of the configured credentials. *)
Lemma react_dashboard (ev : event) (s : Session) :
  sessionInv s ->
  view (react ev s) = "dashboard" ->
  view s = "dashboard" \/
  exists f, ev = Submit f /\ email f = LOGIN_email /\ password f = LOGIN_password.
Proof.
  intros Hinv. unfold react.
  destruct ev as [| | f |]; destruct (content s) eqn:Hc; auto;
    try discriminate.
  destruct (handleSubmit_session f s) as [(He & Hp & ->) | [-> | ->]]; eauto.
Qed.

(** X13.  Whatever the stored data a page loads with and whatever the
    user then does, the session is authenticated exactly when the token
    is stored, the dashboard is shown exactly in the dashboard view, and
    it is shown only after the form was submitted with the configured
    email and password: a stored token alone does not open it. *)
Theorem dashboard_needs_login (stored : gmap string string)
    (evs : list event) :
  let s := reacts evs (initialSession stored) in
  (isAuthenticated s = true <-> storage s !! "authToken" = Some "valid") /\
  (content s = DashboardLayout <-> view s = "dashboard") /\
  (content s = DashboardLayout ->
     isAuthenticated s = true /\
     exists f, Submit f ∈ evs /\
               email f = LOGIN_email /\ password f = LOGIN_password).
Proof.
  cbv zeta.
  pose proof (reacts_inv evs _ (initialSession_inv stored)) as Hinv.
  split; [apply Hinv |]. split; [now apply content_dashboard |].
  intros Hc. apply (content_dashboard _ Hinv) in Hc.
  split; [now apply Hinv |]. clear Hinv.
  induction evs as [| ev evs IH] using rev_ind; [discriminate |].
  rewrite reacts_snoc in Hc.
  destruct (react_dashboard ev _
              (reacts_inv evs _ (initialSession_inv stored)) Hc)
    as [Hd | (f & -> & He & Hp)].
  - destruct (IH Hd) as (f & Hf & He & Hp).
    exists f. split; [| now split]. apply elem_of_app. now left.
  - exists f. split; [| now split]. apply elem_of_app. right. left.
Qed.

(** A logout removes the token and leads to the landing page, and
    the next page load starts unauthenticated on the landing page. *)
Lemma logout_clears (s : Session) :
  storage (logout s) !! "authToken" = None /\
  content (logout s) = LandingPage /\
  isAuthenticated (initialSession (storage (logout s))) = false /\
  (forall key, key <> "authToken" ->
     storage (logout s) !! key = storage s !! key).
Proof.
  unfold logout. cbn [storage view isAuthenticated initialSession].
  split; [apply lookup_delete_eq |]. split; [reflexivity |].
  split.
  - apply bool_decide_eq_false. rewrite lookup_delete_eq. discriminate.
  - intros key Hne. now apply lookup_delete_ne.
Qed.

(** ** The pattern of the email check *)

Lemma append_nil_inv (s1 s2 : string) :
  s1 +:+ s2 = EmptyString -> s1 = EmptyString /\ s2 = EmptyString.
Proof. destruct s1; [auto | discriminate]. Qed.

Lemma append_cons_inv (s1 s2 : string) (c : ascii) (s : string) :
  s1 +:+ s2 = String c s ->
  (s1 = EmptyString /\ s2 = String c s) \/
  (exists s1', s1 = String c s1' /\ s = s1' +:+ s2).
Proof.
  destruct s1 as [| c1 s1']; [auto |].
  change (String c1 s1' +:+ s2) with (String c1 (s1' +:+ s2)).
  intros [= -> <-]. right. eauto.
Qed.

Lemma matches_cat_inv r1 r2 s :
  matches (Cat r1 r2) s ->
  exists s1 s2, s = s1 +:+ s2 /\ matches r1 s1 /\ matches r2 s2.
Proof. inversion 1; subst. eauto. Qed.

Lemma matches_chars_inv p s :
  matches (Chars p) s -> exists c, s = String c EmptyString /\ p c = true.
Proof. inversion 1; subst. eauto. Qed.

Lemma nullable_matches (r : regex) :
  nullable r = true <-> matches r EmptyString.
Proof.
  split.
  - induction r; cbn [nullable]; try discriminate; intros H.
    + constructor.
    + apply andb_true_iff in H as [H1 H2].
      change EmptyString with (EmptyString +:+ EmptyString).
      constructor; auto.
    + apply orb_true_iff in H as [H | H];
        [apply m_alt_l | apply m_alt_r]; auto.
    + constructor.
  - intros H. remember EmptyString as s eqn:Hs.
    induction H; cbn [nullable]; try reflexivity; try discriminate.
    + apply append_nil_inv in Hs as [-> ->].
      now rewrite IHmatches1, IHmatches2.
    + now rewrite IHmatches.
    + rewrite IHmatches by exact Hs. apply orb_true_r.
Qed.

Lemma deriv_sound (c : ascii) (r : regex) : forall s,
  matches (deriv c r) s -> matches r (String c s).
Proof.
  induction r as [| | p | r1 IH1 r2 IH2 | r1 IH1 r2 IH2 | r1 IH1];
    intros s; cbn [deriv]; intros H.
  - inversion H.
  - inversion H.
  - destruct (p c) eqn:Hp; inversion H; subst. now constructor.
  - destruct (nullable r1) eqn:Hn.
    + inversion H as [| | | ? ? ? Hl | ? ? ? Hr | |]; subst.
      * apply matches_cat_inv in Hl as (s1 & s2 & -> & H1 & H2).
        change (String c (s1 +:+ s2)) with (String c s1 +:+ s2).
        constructor; auto.
      * change (String c s) with (EmptyString +:+ String c s).
        constructor; [now apply nullable_matches | auto].
    + apply matches_cat_inv in H as (s1 & s2 & -> & H1 & H2).
      change (String c (s1 +:+ s2)) with (String c s1 +:+ s2).
      constructor; auto.
  - inversion H; subst; [apply m_alt_l | apply m_alt_r]; auto.
  - apply matches_cat_inv in H as (s1 & s2 & -> & H1 & H2).
    change (String c (s1 +:+ s2)) with (String c s1 +:+ s2).
    constructor; auto.
Qed.

Lemma deriv_complete (c : ascii) (r : regex) (s0 : string) :
  matches r s0 -> forall s, s0 = String c s -> matches (deriv c r) s.
Proof.
  induction 1 as [| p c' Hp | r1 r2 s1 s2 H1 IH1 H2 IH2 | r1 r2 s' H IH
                  | r1 r2 s' H IH | r1 | r1 s1 s2 H1 IH1 H2 IH2];
    intros s Hs; cbn [deriv].
  - discriminate.
  - injection Hs as -> <-. rewrite Hp. constructor.
  - apply append_cons_inv in Hs as [[-> ->] | (s1' & -> & ->)].
    + apply nullable_matches in H1. rewrite H1. apply m_alt_r. now apply IH2.
    + destruct (nullable r1); [apply m_alt_l |]; constructor; auto.
  - apply m_alt_l. auto.
  - apply m_alt_r. auto.
  - discriminate.
  - apply append_cons_inv in Hs as [[-> ->] | (s1' & -> & ->)].
    + now apply IH2.
    + constructor; auto.
Qed.

(** The test by derivatives decides the full match. *)
Lemma regex_test_matches (s : string) : forall r,
  regex_test r s = true <-> matches r s.
Proof.
  induction s as [| c s IH]; intros r; cbn [regex_test].
  - apply nullable_matches.
  - rewrite IH. split; [apply deriv_sound |].
    intros H. now apply (deriv_complete c r _ H).
Qed.

Lemma matches_star_chars (p : ascii -> bool) (s : string) :
  matches (Star (Chars p)) s <-> allChars p s = true.
Proof.
  split.
  - intros H. remember (Star (Chars p)) as r eqn:Hr.
    induction H; try discriminate; [reflexivity |].
    injection Hr as ->.
    apply matches_chars_inv in H as (c & -> & Hc).
    change (String c EmptyString +:+ s2) with (String c s2).
    cbn [allChars]. rewrite Hc. now apply IHmatches2.
  - induction s as [| c s IH]; cbn [allChars]; intros H; [constructor |].
    apply andb_true_iff in H as [Hc Hs].
    change (String c s) with (String c EmptyString +:+ s).
    constructor; [now constructor | auto].
Qed.

Lemma matches_plus_chars (p : ascii -> bool) (s : string) :
  matches (Plus (Chars p)) s <-> s <> EmptyString /\ allChars p s = true.
Proof.
  unfold Plus. split.
  - intros H. apply matches_cat_inv in H as (s1 & s2 & -> & H1 & H2).
    apply matches_chars_inv in H1 as (c & -> & Hc).
    apply matches_star_chars in H2.
    change (String c EmptyString +:+ s2) with (String c s2).
    split; [discriminate |]. cbn [allChars]. now rewrite Hc.
  - intros [Hne H]. destruct s as [| c s]; [contradiction |].
    cbn [allChars] in H. apply andb_true_iff in H as [Hc Hs].
    change (String c s) with (String c EmptyString +:+ s).
    constructor; [now constructor | now apply matches_star_chars].
Qed.

Lemma matches_char (c0 : ascii) (s : string) :
  matches (Chars (Ascii.eqb c0)) s <-> s = String c0 EmptyString.
Proof.
  split.
  - intros H. apply matches_chars_inv in H as (c & -> & Hc).
    apply Ascii.eqb_eq in Hc. now subst.
  - intros ->. constructor. apply Ascii.eqb_refl.
Qed.

(** X15.  The email check of the login form accepts exactly the texts
    [a@b.c] in which [a], [b] and [c] are not empty and hold neither
    white space nor [@]. *)
Theorem emailPattern_accepts (s : string) :
  regex_test emailPattern s = true <->
  exists a b c,
    s = a +:+ "@" +:+ b +:+ "." +:+ c /\
    a <> EmptyString /\ b <> EmptyString /\ c <> EmptyString /\
    allChars notSpaceAt a = true /\ allChars notSpaceAt b = true /\
    allChars notSpaceAt c = true.
Proof.
  rewrite regex_test_matches. unfold emailPattern. split.
  - intros H.
    apply matches_cat_inv in H as (a & s1 & -> & Ha & H).
    apply matches_cat_inv in H as (at1 & s2 & -> & Hat & H).
    apply matches_cat_inv in H as (b & s3 & -> & Hb & H).
    apply matches_cat_inv in H as (dot & c & -> & Hdot & Hc).
    apply matches_char in Hat, Hdot. subst at1 dot.
    apply matches_plus_chars in Ha as [Ha1 Ha2], Hb as [Hb1 Hb2],
                                Hc as [Hc1 Hc2].
    exists a, b, c. conjs; auto.
  - intros (a & b & c & -> & Ha & Hb & Hc & Ha' & Hb' & Hc').
    constructor; [now apply matches_plus_chars |].
    constructor; [now apply matches_char |].
    constructor; [now apply matches_plus_chars |].
    constructor; [now apply matches_char | now apply matches_plus_chars].
Qed.

(** ** Edits of the threshold form *)

Lemma setLimit_cases (limit : string) (v : Q) (r r' : Range) :
  setLimit limit v r = Some r' ->
  (limit = "min" /\ r' = {| rmin := v; rmax := rmax r |}) \/
  (limit = "max" /\ r' = {| rmin := rmin r; rmax := v |}).
Proof.
  unfold setLimit.
  destruct (String.eqb_spec limit "min") as [-> | _]; [intros [= <-]; auto |].
  destruct (String.eqb_spec limit "max") as [-> | _]; [intros [= <-]; auto |].
  discriminate.
Qed.

Lemma setBound_cases (type limit : string) (v : Q) (prev local : Thresholds) :
  setBound type limit v prev = Some local ->
  (exists r, setLimit limit v (th_temp prev) = Some r /\ type = "temp" /\
             local = {| th_temp := r; th_humidity := th_humidity prev |}) \/
  (exists r, setLimit limit v (th_humidity prev) = Some r /\
             type = "humidity" /\
             local = {| th_temp := th_temp prev; th_humidity := r |}).
Proof.
  unfold setBound.
  destruct (String.eqb_spec type "temp") as [-> | _].
  - destruct (setLimit limit v (th_temp prev)) as [r |]; [| discriminate].
    intros [= <-]. left. eauto.
  - destruct (String.eqb_spec type "humidity") as [-> | _]; [| discriminate].
    destruct (setLimit limit v (th_humidity prev)) as [r |]; [| discriminate].
    intros [= <-]. right. eauto.
Qed.

Lemma handleChange_inv (name value : string) (s s' : Settings) :
  handleChange name value s = Some s' ->
  exists type limit rest v local,
    split "-" name = type :: limit :: rest /\
    numberOrZero value = Some v /\
    setBound type limit v (localThresholds s) = Some local /\
    s' = {| thresholds := thresholds s; localStorage := localStorage s;
            localThresholds := local; success := false;
            validationError := None |}.
Proof.
  unfold handleChange.
  destruct (split "-" name) as [| type [| limit rest]]; try discriminate.
  destruct (numberOrZero value) as [v |]; [| discriminate].
  destruct (setBound type limit v (localThresholds s)) as [local |] eqn:Hb;
    [| discriminate].
  intros [= <-]. exists type, limit, rest, v, local. auto.
Qed.

(** X16.  An edit of the threshold form, when it stays within the model,
    changes exactly one bound of the draft, to the number the text parses
    to, or to 0 when the text is not a number; it keeps the other three
    bounds, the active threshold set and the stored one, and it clears
    the success flag and the validation error. *)
Theorem handleChange_edits_one_bound (name value : string) (s s' : Settings) :
  handleChange name value s = Some s' ->
  thresholds s' = thresholds s /\
  localStorage s' = localStorage s /\
  success s' = false /\
  validationError s' = None /\
  exists v,
    numberOrZero value = Some v /\
    (parseFloat value = PNaN -> v = 0%Q) /\
    (forall x, parseFloat value = PNum x -> (v == x)%Q) /\
    let old := localThresholds s in
    (localThresholds s'
       = {| th_temp := {| rmin := v; rmax := rmax (th_temp old) |};
            th_humidity := th_humidity old |} \/
     localThresholds s'
       = {| th_temp := {| rmin := rmin (th_temp old); rmax := v |};
            th_humidity := th_humidity old |} \/
     localThresholds s'
       = {| th_temp := th_temp old;
            th_humidity := {| rmin := v; rmax := rmax (th_humidity old) |} |} \/
     localThresholds s'
       = {| th_temp := th_temp old;
            th_humidity := {| rmin := rmin (th_humidity old); rmax := v |} |}).
Proof.
  intros H.
  apply handleChange_inv in H
    as (type & limit & rest & v & local & _ & Hv & Hb & ->).
  cbn [thresholds localStorage success validationError localThresholds].
  conjs; try reflexivity.
  exists v. split; [exact Hv |]. split; [| split].
  - intros Hp. unfold numberOrZero in Hv. rewrite Hp in Hv. congruence.
  - intros x Hp. unfold numberOrZero in Hv. rewrite Hp in Hv.
    injection Hv as <-. destruct (Qeq_bool x 0) eqn:Hz; [| reflexivity].
    apply Qeq_bool_iff in Hz. now rewrite Hz.
  - cbv zeta.
    apply setBound_cases in Hb as [(r & Hr & _ & ->) | (r & Hr & _ & ->)];
      apply setLimit_cases in Hr as [[_ ->] | [_ ->]]; auto.
Qed.

Lemma handleChange_active (name value : string) (s s' : Settings) :
  handleChange name value s = Some s' ->
  thresholds s' = thresholds s /\ localStorage s' = localStorage s.
Proof.
  intros H.
  apply handleChange_inv in H as (? & ? & ? & ? & ? & _ & _ & _ & ->).
  split; reflexivity.
Qed.

Lemma handleSave_active (s : Settings) :
  validThresholds (thresholds s) -> persisted s ->
  validThresholds (thresholds (handleSave s)) /\ persisted (handleSave s).
Proof.
  intros Hv Hp.
  destruct (handleSave_cases s) as [[_ ->] | [(_ & _ & ->) | (Ht & Hh & ->)]].
  - split; assumption.
  - split; assumption.
  - split; [split; assumption |].
    intros text. cbn. rewrite lookup_insert_eq. congruence.
Qed.

(** X17.  Whatever is typed and saved on the threshold form, the active
    threshold set keeps [min < max] on both metrics, and what is stored
    under [iotThresholds] stays the JSON text of the active set. *)
Theorem formRun_keeps_valid (evs : list formEvent) : forall s s',
  validThresholds (thresholds s) ->
  persisted s ->
  formRun evs s = Some s' ->
  validThresholds (thresholds s') /\ persisted s'.
Proof.
  induction evs as [| ev evs IH]; intros s s' Hv Hp; cbn [formRun].
  - intros [= <-]. now split.
  - destruct (formReact ev s) as [s1 |] eqn:H1; [| discriminate].
    apply IH. 
    + destruct ev as [name value |]; cbn [formReact] in H1.
      * destruct (handleChange_active _ _ _ _ H1) as [-> _]. exact Hv.
      * injection H1 as <-. now apply handleSave_active.
    + destruct ev as [name value |]; cbn [formReact] in H1.
      * destruct (handleChange_active _ _ _ _ H1) as [Ht Hs].
        unfold persisted. now rewrite Ht, Hs.
      * injection H1 as <-. now apply handleSave_active.
Qed.

(** X18.  Saving twice in a row gives the state the first save gave. *)
Theorem handleSave_idempotent (s : Settings) :
  handleSave (handleSave s) = handleSave s.
Proof.
  destruct (handleSave_cases s)
    as [[Ht Hs] | [(Ht & Hh & Hs) | (Ht & Hh & Hs)]]; rewrite Hs.
  - rewrite handleSave_temperature by exact Ht. reflexivity.
  - rewrite handleSave_humidity by assumption. reflexivity.
  - rewrite handleSave_commit by assumption.
    unfold setSuccess, setThresholds, setValidationError. cbn.
    now rewrite insert_insert_eq.
Qed.

(** ** The live history from any buffer *)

(** X19.  Whatever the live history held, after one append or more it
    holds the last 10 entries of what it held followed by what was
    appended, so at most 10 entries. *)
Theorem pushAll_heals (h ps : list LivePoint) :
  ps <> [] ->
  pushAll ps h = drop (length (h ++ ps) - 10) (h ++ ps) /\
  (length (pushAll ps h) <= 10)%nat.
Proof.
  intros Hne. destruct ps as [| p ps]; [contradiction |].
  assert (Heq : pushAll (p :: ps) h
                = drop (length (h ++ p :: ps) - 10) (h ++ p :: ps)).
  { change (pushAll (p :: ps) h) with (pushAll ps (pushLive h p)).
    rewrite (pushAll_from ps _ (pushLive_length h p)), pushLive_eq.
    rewrite <- !app_assoc. cbn [app].
    destruct (decide (length h <= 9)%nat) as [Hle | Hgt].
    - replace (length h - 9)%nat with 0%nat by lia. reflexivity.
    - pose proof (take_drop (length h - 9) h) as Hsplit.
      assert (Hpre : length (take (length h - 9) h) = (length h - 9)%nat)
        by (rewrite length_take; lia).
      assert (Hsuf : length (drop (length h - 9) h) = 9%nat)
        by (rewrite length_drop; lia).
      remember (take (length h - 9) h) as pre eqn:Epre.
      remember (drop (length h - 9) h) as suf eqn:Esuf.
      clear Epre Esuf. subst h.
      rewrite <- app_assoc.
      replace (length (pre ++ suf ++ p :: ps) - 10)%nat
        with (length pre + (length (suf ++ p :: ps) - 10))%nat
        by (rewrite !length_app; cbn; lia).
      now rewrite drop_app_add. }
  split; [exact Heq |]. rewrite Heq, length_drop. lia.
Qed.

Lemma pushAll_heals_witness :
  pushAll [pt 11; pt 12] (map pt [0; 1; 2; 3; 4; 5; 6; 7; 8; 9; 10])
    = map pt [3; 4; 5; 6; 7; 8; 9; 10; 11; 12].
Proof.
  destruct (pushAll_heals (map pt [0; 1; 2; 3; 4; 5; 6; 7; 8; 9; 10])
              [pt 11; pt 12]) as [H _]; [discriminate |].
  rewrite H. reflexivity.
Defined.

(** ** Alerts and wider thresholds *)

(** X20.  Widening the thresholds raises no alert: with every range of
    [th] within the range of [th'], an alert flag that is true under [th']
    is true under [th], for any device id. *)
Theorem alerts_antitone (deviceData : gmap string DeviceEntry)
    (th th' : Thresholds) (deviceId : string) :
  rangeWithin (th_temp th) (th_temp th') ->
  rangeWithin (th_humidity th) (th_humidity th') ->
  (tempAlert (getDeviceCurrentData deviceData th' deviceId) = Some true ->
   tempAlert (getDeviceCurrentData deviceData th deviceId) = Some true) /\
  (humidityAlert (getDeviceCurrentData deviceData th' deviceId) = Some true ->
   humidityAlert (getDeviceCurrentData deviceData th deviceId) = Some true).
Proof.
  intros [Ht1 Ht2] [Hh1 Hh2]. unfold getDeviceCurrentData.
  destruct (deviceData !! deviceId) as [e |]; cbn; [| split; discriminate].
  split; intros [= H]; f_equal; apply alert_iff; apply alert_iff in H;
    destruct H as [H | H]; [left | right | left | right]; lra.
Qed.

Lemma alerts_antitone_witness :
  tempAlert (getDeviceCurrentData sampleData fineThresholds "dev-002")
    = Some true.
Proof.
  apply (alerts_antitone sampleData fineThresholds
           {| th_temp := {| rmin := 18 # 1; rmax := 26 # 1 |};
              th_humidity := {| rmin := 40 # 1; rmax := 60 # 1 |} |}
           "dev-002").
  - split; discriminate.
  - split; discriminate.
  - reflexivity.
Defined.

(** ** Witnesses on the sample inputs *)

Lemma tick_keeps_table_witness :
  exists data' w',
    tick INITIAL_DEVICES DEFAULT_THRESHOLDS sampleData (constWorld (1 # 4) 0)
      = Ok (data', w') /\
    dom data' = dom sampleData.
Proof.
  destruct (tick_keeps_table INITIAL_DEVICES DEFAULT_THRESHOLDS sampleData
              (constWorld (1 # 4) 0) sampleData_complete)
    as (data' & w' & Hrun & Hdom & _).
  exists data', w'. now split.
Defined.

Lemma tick_missing_device_witness :
  tick INITIAL_DEVICES DEFAULT_THRESHOLDS (delete "dev-003" sampleData)
    (constWorld (1 # 4) 0) = Throw TypeError.
Proof.
  apply (tick_missing_device DEFAULT_THRESHOLDS dev3).
  - right; right; left.
  - reflexivity.
Defined.




Lemma ticks_frozen_witness :
  exists data' w',
    ticks 3 INITIAL_DEVICES DEFAULT_THRESHOLDS sampleData (constWorld (1 # 4) 0)
      = Ok (data', w') /\
    data' !! "dev-003"
      = Some {| temp := 224 # 10; humidity := 512 # 10; status := false |}.
Proof.
  destruct (ticks_frozen INITIAL_DEVICES DEFAULT_THRESHOLDS
              INITIAL_DEVICES_unique 2 sampleData (constWorld (1 # 4) 0) dev3
              {| temp := 224 # 10; humidity := 512 # 10; status := false |})
    as (data' & w' & Hrun & _ & He).
  - exact sampleData_complete.
  - right; right; left.
  - reflexivity.
  - reflexivity.
  - exists data', w'. split; [exact Hrun |].
    change (dev_id dev3) with "dev-003" in He. rewrite He. reflexivity.
Defined.



Lemma toggleStatus_twice_witness :
  toggleStatus "dev-001" toggledData = Ok sampleData.
Proof.
  apply (toggleStatus_twice "dev-001" sampleData toggledData). reflexivity.
Defined.

Lemma toggleStatus_report_witness :
  cd_status (getDeviceCurrentData toggledData DEFAULT_THRESHOLDS "dev-001")
    = false /\
  getDeviceCurrentData toggledData DEFAULT_THRESHOLDS "dev-002"
    = getDeviceCurrentData sampleData DEFAULT_THRESHOLDS "dev-002".
Proof.
  destruct (toggleStatus_report "dev-001" sampleData toggledData
              DEFAULT_THRESHOLDS eq_refl) as [Hself Hother].
  split.
  - cbv zeta in Hself. rewrite Hself. reflexivity.
  - apply Hother. discriminate.
Defined.

Lemma createHistoricalData_values_witness :
  exists pts w',
    createHistoricalData "7d" (constWorld (1 # 2) 1700000000000)
      = Ok (pts, w') /\
    Forall drawnPoint pts /\
    cursor w' = 336%nat.
Proof.
  destruct (createHistoricalData_values "7d"
              (constWorld (1 # 2) 1700000000000))
    as (pts & w' & Hrun & Hpts & Hcur & _).
  - apply constWorld_unit; [discriminate | reflexivity].
  - exists pts, w'. split; [exact Hrun |]. split; [| exact Hcur].
    eapply Forall_impl; [exact Hpts |]. now intros p [Hp _].
Defined.

Lemma export_of_series_witness :
  exists pts w',
    createHistoricalData "3m" (constWorld (1 # 2) 1700000000000)
      = Ok (pts, w') /\
    convertToCsv (dataToExport pts)
      = Ok (("Timestamp,Temperature,Humidity" +:+ newline)
            +:+ csvLines (dataToExport pts)).
Proof.
  apply (export_of_series "3m" (constWorld (1 # 2) 1700000000000));
    vm_compute; discriminate.
Defined.

Lemma handleChange_edits_one_bound_witness :
  exists s',
    handleChange "humidity-min" "" defaultForm = Some s' /\
    thresholds s' = DEFAULT_THRESHOLDS /\
    validationError s' = None.
Proof.
  assert (H : handleChange "humidity-min" "" defaultForm
              = Some {| thresholds := DEFAULT_THRESHOLDS; localStorage := ∅;
                        localThresholds :=
                          {| th_temp := th_temp DEFAULT_THRESHOLDS;
                             th_humidity := {| rmin := 0; rmax := 60 # 1 |} |};
                        success := false; validationError := None |})
    by reflexivity.
  destruct (handleChange_edits_one_bound _ _ _ _ H) as (Ht & _ & _ & He & _).
  eexists. split; [exact H |]. split; [exact Ht | exact He].
Defined.

Lemma defaultForm_persisted : persisted defaultForm.
Proof. intros text H. discriminate. Qed.

Lemma formRun_keeps_valid_witness :
  exists s',
    formRun sampleEdits defaultForm = Some s' /\
    validThresholds (thresholds s') /\ persisted s'.
Proof.
  assert (H : formRun sampleEdits defaultForm
              = Some (handleSave
                        {| thresholds := DEFAULT_THRESHOLDS; localStorage := ∅;
                           localThresholds :=
                             {| th_temp := {| rmin := 18 # 1; rmax := 275 # 10 |};
                                th_humidity := th_humidity DEFAULT_THRESHOLDS |};
                           success := false; validationError := None |}))
    by reflexivity.
  eexists. split; [exact H |].
  exact (formRun_keeps_valid sampleEdits defaultForm _
           DEFAULT_THRESHOLDS_valid defaultForm_persisted H).
Defined.

(** ** The shape of the ISO text *)

(** A year has 365 days, or 366 when it is a leap year. *)
Lemma DayFromYear_succ (y : Z) :
  DayFromYear (y + 1) = DayFromYear y + 365 + InLeapYear y.
Proof.
  unfold DayFromYear, InLeapYear.
  destruct (Z.eqb_spec (y mod 4) 0) as [H4 | H4];
    destruct (Z.eqb_spec (y mod 100) 0) as [H100 | H100];
    destruct (Z.eqb_spec (y mod 400) 0) as [H400 | H400]; cbn [andb orb negb];
    Z.div_mod_to_equations; lia.
Qed.

Lemma InLeapYear_flag (y : Z) : InLeapYear y = 0 \/ InLeapYear y = 1.
Proof. unfold InLeapYear. destruct (_ && _); auto. Qed.

Lemma monthAndDate_range (dayWithinYear leap : Z) :
  0 <= dayWithinYear < 365 + leap ->
  leap = 0 \/ leap = 1 ->
  1 <= fst (monthAndDate dayWithinYear leap) <= 12 /\
  1 <= snd (monthAndDate dayWithinYear leap) <= 31.
Proof.
  intros Hd Hl. unfold monthAndDate.
  repeat (match goal with
          | |- context [?a <? ?b] => destruct (Z.ltb_spec a b)
          end); cbn [fst snd]; lia.
Qed.

(** The month and the day of the month lie within the calendar's ranges. *)
Lemma civil_date_range (day : Z) :
  1 <= snd (fst (civil_from_days day)) <= 12 /\
  1 <= snd (civil_from_days day) <= 31.
Proof.
  pose proof (calendar_agrees_all day) as H. unfold calendar_agrees in H.
  destruct (civil_from_days day) as [[y m] d]. cbn [fst snd].
  pose proof (DayFromYear_succ y) as Hy.
  pose proof (InLeapYear_flag y) as Hl.
  destruct (monthAndDate (day - DayFromYear y) (InLeapYear y))
    as [m' d'] eqn:Hmd.
  apply andb_true_iff in H as [H Hd]. apply andb_true_iff in H as [H Hm].
  apply andb_true_iff in H as [Hlo Hhi].
  apply Z.leb_le in Hlo. apply Z.ltb_lt in Hhi.
  apply Z.eqb_eq in Hm, Hd. subst m' d'.
  pose proof (monthAndDate_range (day - DayFromYear y) (InLeapYear y)
                ltac:(lia) Hl) as Hr.
  rewrite Hmd in Hr. exact Hr.
Qed.

Lemma paddedFrom_length (width count : nat) : forall n k : Z,
  paddedFrom width count n = true ->
  n <= k < n + Z.of_nat count ->
  String.length (pad0 width k) = width.
Proof.
  induction count as [| count IH]; intros n k H Hk; [lia |].
  cbn [paddedFrom] in H. apply andb_true_iff in H as [Hn Hrest].
  destruct (Z.eq_dec k n) as [-> | Hne].
  - now apply Nat.eqb_eq.
  - apply (IH (n + 1) k Hrest). lia.
Qed.

Lemma padded_length (width : nat) (bound n : Z) :
  padded width (Z.to_nat bound) = true ->
  0 <= n < bound ->
  String.length (pad0 width n) = width.
Proof.
  intros H Hn. apply (paddedFrom_length width (Z.to_nat bound) 0 n H). lia.
Qed.

Lemma padded2 : padded 2 (Z.to_nat 100) = true.
Proof. vm_compute. reflexivity. Qed.

Lemma padded3 : padded 3 (Z.to_nat 1000) = true.
Proof. vm_compute. reflexivity. Qed.

Lemma padded4 : padded 4 (Z.to_nat 10000) = true.
Proof. vm_compute. reflexivity. Qed.

Lemma DayFromYear_mono (y1 y2 : Z) :
  y1 <= y2 -> DayFromYear y1 <= DayFromYear y2.
Proof.
  intros H. unfold DayFromYear.
  pose proof (Z.div_mod (y1 - 1969) 4 ltac:(lia)).
  pose proof (Z.mod_pos_bound (y1 - 1969) 4 ltac:(lia)).
  pose proof (Z.div_mod (y2 - 1969) 4 ltac:(lia)).
  pose proof (Z.mod_pos_bound (y2 - 1969) 4 ltac:(lia)).
  pose proof (Z.div_mod (y1 - 1901) 100 ltac:(lia)).
  pose proof (Z.mod_pos_bound (y1 - 1901) 100 ltac:(lia)).
  pose proof (Z.div_mod (y2 - 1901) 100 ltac:(lia)).
  pose proof (Z.mod_pos_bound (y2 - 1901) 100 ltac:(lia)).
  pose proof (Z.div_mod (y1 - 1601) 400 ltac:(lia)).
  pose proof (Z.mod_pos_bound (y1 - 1601) 400 ltac:(lia)).
  pose proof (Z.div_mod (y2 - 1601) 400 ltac:(lia)).
  pose proof (Z.mod_pos_bound (y2 - 1601) 400 ltac:(lia)).
  lia.
Qed.

(** The year of a day within the years 0 to 9999. *)
Lemma year_four_digits (day : Z) :
  DayFromYear 0 <= day < DayFromYear 10000 ->
  0 <= fst (fst (civil_from_days day)) <= 9999.
Proof.
  intros Hday. pose proof (calendar_agrees_all day) as H.
  unfold calendar_agrees in H.
  destruct (civil_from_days day) as [[y m] d]. cbn [fst].
  destruct (monthAndDate _ _) as [m' d'].
  apply andb_true_iff in H as [H _]. apply andb_true_iff in H as [H _].
  apply andb_true_iff in H as [Hlo Hhi].
  apply Z.leb_le in Hlo. apply Z.ltb_lt in Hhi.
  split.
  - destruct (Z_le_gt_dec 0 y) as [| Hneg]; [assumption | exfalso].
    pose proof (DayFromYear_mono (y + 1) 0 ltac:(lia)). lia.
  - destruct (Z_le_gt_dec y 9999) as [| Hbig]; [assumption | exfalso].
    pose proof (DayFromYear_mono 10000 y ltac:(lia)). lia.
Qed.

Lemma length_append (a b : string) :
  String.length (a +:+ b) = (String.length a + String.length b)%nat.
Proof.
  induction a as [| c a IH]; [reflexivity |].
  change (String c a +:+ b) with (String c (a +:+ b)). cbn. now rewrite IH.
Qed.

(** X21.  For a time value within the years 0 to 9999 the ISO text is
    made of a year of four characters, a month, a day, an hour, a minute
    and a second of two characters each and milliseconds of three, with
    the separators of [YYYY-MM-DDTHH:mm:ss.sssZ] between them: 24
    characters in all. *)
Theorem isoString_shape (t : Z) :
  minFourDigit <= t <= maxFourDigit ->
  String.length (isoString t) = 24%nat /\
  exists Y M D h m s ms,
    isoString t = Y +:+ "-" +:+ M +:+ "-" +:+ D +:+ "T" +:+ h +:+ ":" +:+ m
                  +:+ ":" +:+ s +:+ "." +:+ ms +:+ "Z" /\
    String.length Y = 4%nat /\ String.length M = 2%nat /\
    String.length D = 2%nat /\ String.length h = 2%nat /\
    String.length m = 2%nat /\ String.length s = 2%nat /\
    String.length ms = 3%nat.
Proof.
  unfold minFourDigit, maxFourDigit. intros Ht.
  assert (Hday : DayFromYear 0 <= t / msPerDay < DayFromYear 10000).
  { change (DayFromYear 0) with (-719528).
    change (DayFromYear 10000) with 2932897. unfold msPerDay.
    split.
    - apply Z.div_le_lower_bound; lia.
    - apply Z.div_lt_upper_bound; lia. }
  pose proof (year_four_digits _ Hday) as Hy.
  pose proof (civil_date_range (t / msPerDay)) as Hmd.
  pose proof (Z.mod_pos_bound t msPerDay ltac:(unfold msPerDay; lia)) as Hms.
  unfold isoString.
  destruct (civil_from_days (t / msPerDay)) as [[y mo] d].
  cbn [fst snd] in Hy, Hmd. destruct Hmd as [[Hm1 Hm2] [Hd1 Hd2]].
  cbv zeta. set (ms := t mod msPerDay) in *. unfold msPerDay in Hms.
  assert (HY : String.length (isoYear y) = 4%nat).
  { unfold isoYear.
    replace ((0 <=? y) && (y <=? 9999)) with true
      by (symmetry; apply andb_true_iff; split; apply Z.leb_le; lia).
    apply (padded_length 4 10000 y padded4). lia. }
  assert (HM : String.length (pad0 2 mo) = 2%nat)
    by (apply (padded_length 2 100 mo padded2); lia).
  assert (HD : String.length (pad0 2 d) = 2%nat)
    by (apply (padded_length 2 100 d padded2); lia).
  assert (Hh : String.length (pad0 2 (ms / 3600000)) = 2%nat).
  { apply (padded_length 2 100 _ padded2). split.
    - apply Z.div_pos; lia.
    - apply Z.div_lt_upper_bound; lia. }
  assert (Hmi : String.length (pad0 2 (ms / 60000 mod 60)) = 2%nat).
  { apply (padded_length 2 100 _ padded2).
    pose proof (Z.mod_pos_bound (ms / 60000) 60 ltac:(lia)). lia. }
  assert (Hs : String.length (pad0 2 (ms / 1000 mod 60)) = 2%nat).
  { apply (padded_length 2 100 _ padded2).
    pose proof (Z.mod_pos_bound (ms / 1000) 60 ltac:(lia)). lia. }
  assert (Hmm : String.length (pad0 3 (ms mod 1000)) = 3%nat).
  { apply (padded_length 3 1000 _ padded3).
    pose proof (Z.mod_pos_bound ms 1000 ltac:(lia)). lia. }
  split.
  - rewrite !length_append, HY, HM, HD, Hh, Hmi, Hs, Hmm. reflexivity.
  - do 7 eexists. split; [reflexivity |]. conjs; assumption.
Qed.

Lemma isoString_shape_witness :
  String.length (isoString 1700000000000) = 24%nat.
Proof.
  apply (isoString_shape 1700000000000). split; discriminate.
Defined.

(** ** Texts of numbers parse back *)

Lemma parsesBack_range : allParseBack (Z.to_nat 2001) (-1000) = true.
Proof. vm_compute. reflexivity. Qed.

Lemma allParseBack_spec (n : nat) (m0 : Z) :
  allParseBack n m0 = true ->
  forall k : nat, (k < n)%nat -> parsesBack (m0 + Z.of_nat k) = true.
Proof.
  unfold allParseBack. rewrite forallb_forall. intros H k Hk.
  apply H, in_seq. lia.
Qed.

(** X22.  For every number with one decimal place from -100 to 100,
    the text [Number::toString] gives for it is read back by [parseFloat]
    as the same number, so an input of the threshold form that shows the
    number and is parsed again keeps it. *)
Theorem parseFloat_of_toString (m : Z) :
  -1000 <= m <= 1000 ->
  exists x v,
    parseFloat (Number_toString (m # 10)) = PNum x /\ (x == m # 10)%Q /\
    numberOrZero (Number_toString (m # 10)) = Some v /\ (v == m # 10)%Q.
Proof.
  intros Hm.
  assert (H : parsesBack m = true).
  { replace m with (-1000 + Z.of_nat (Z.to_nat (m + 1000))) by lia.
    apply (allParseBack_spec _ _ parsesBack_range). lia. }
  unfold parsesBack in H. unfold numberOrZero.
  destruct (parseFloat (Number_toString (m # 10))) as [| neg | x];
    try discriminate.
  apply Qeq_bool_iff in H.
  exists x, (if Qeq_bool x 0 then 0%Q else x).
  split; [reflexivity |]. split; [exact H |]. split; [reflexivity |].
  destruct (Qeq_bool x 0) eqn:Hz; [| exact H].
  apply Qeq_bool_iff in Hz. now rewrite <- H, Hz.
Qed.

Lemma parseFloat_of_toString_witness :
  exists x, parseFloat (Number_toString (185 # 10)) = PNum x /\
            (x == 185 # 10)%Q.
Proof.
  destruct (parseFloat_of_toString 185) as (x & v & Hx & Hq & _);
    [split; discriminate |].
  exists x. now split.
Defined.

(** ** Steps of the walk *)


Section Steps.

Variable devices : list Device.
Variable th : Thresholds.

Hypothesis unique_ids : NoDup (dev_id <$> devices).


End Steps.


(** ** A fresh dashboard *)

(** X24.  With results of [Math.random] in [0, 1) and the default
    thresholds, the initial table raises no alert: for every device of
    the list both alert flags are false. *)
Theorem initial_no_alerts (devices : list Device) (w : World) :
  unit_tape w ->
  exists data w',
    initialDeviceData devices w = Ok (data, w') /\
    forall d, d ∈ devices ->
      tempAlert (getDeviceCurrentData data DEFAULT_THRESHOLDS (dev_id d))
        = Some false /\
      humidityAlert (getDeviceCurrentData data DEFAULT_THRESHOLDS (dev_id d))
        = Some false.
Proof.
  intros Htape.
  destruct (initialDeviceData_seeded devices ∅ w Htape)
    as (data & Hrun & _ & Hin).
  exists data, (advance (2 * length devices) w). split; [exact Hrun |].
  intros d Hd.
  destruct (Hin (dev_id d)) as (e & He & _ & Ht1 & Ht2 & Hh1 & Hh2).
  { apply list_elem_of_fmap. eauto. }
  rewrite (getDeviceCurrentData_present _ _ _ _ He).
  cbn [tempAlert humidityAlert DEFAULT_THRESHOLDS th_temp th_humidity rmin rmax].
  split; f_equal; apply alert_inside; lra.
Qed.

Lemma initial_no_alerts_witness :
  exists data w',
    initialDeviceData INITIAL_DEVICES (constWorld (1 # 3) 0) = Ok (data, w') /\
    tempAlert (getDeviceCurrentData data DEFAULT_THRESHOLDS "dev-001")
      = Some false.
Proof.
  destruct (initial_no_alerts INITIAL_DEVICES (constWorld (1 # 3) 0))
    as (data & w' & Hrun & Hno).
  - apply constWorld_unit; [discriminate | reflexivity].
  - exists data, w'. split; [exact Hrun |].
    apply (Hno dev1). left.
Defined.
